(** * Simon Says (src/index.js): a shallow embedding and its properties

    The script keeps four global variables (the two colour sequences and
    the two round counters), talks to the page through a handful of
    elements, and defers part of its work with [setTimeout].  The embedding
    threads all of that through one explicit [state]:

    - the four globals, as the script declares them;
    - the page: class lists and [textContent] of the elements the script
      looks up, keyed by the selector used in [document.querySelector];
    - the visible effects: [alert] calls and [sound.play()] calls, in order;
    - the callbacks handed to [setTimeout] that have not run yet.

    A function of the script becomes a computation in the monad [M], which
    passes the state along and may end in a JavaScript exception. *)

From Stdlib Require Import ZArith QArith Qround DecimalString DecimalZ.
From stdpp Require Import gmap strings list fin_maps.

Local Open Scope Z_scope.
Local Open Scope string_scope.
Local Open Scope list_scope.

(** ** JavaScript values that reach the round counters *)

(** What [maxRoundCount] and the result of [setLevel] can hold: a number,
    a string, [undefined], or a member that an object literal inherits from
    [Object.prototype] (named by its property name). *)
Inductive jsval :=
  | JUndefined
  | JNum (n : Z)
  | JStr (s : string)
  | JInherited (name : string).

#[global] Instance jsval_eq_dec : EqDecision jsval.
Proof. solve_decision. Defined.

(** The argument of [setLevel]: omitted ([undefined]), an integer-valued
    number, or a string. *)
Inductive level :=
  | LOmitted
  | LNum (n : Z)
  | LStr (s : string).

(** JavaScript truthiness, as tested by [!levelMap[level]]. *)
Definition truthy (v : jsval) : bool :=
  match v with
  | JUndefined => false
  | JNum n => negb (Z.eqb n 0)
  | JStr s => negb (String.eqb s "")
  | JInherited _ => true
  end.

(** Text handed to [setText]: a literal, or one of the script's two
    template literals with the values of its holes. *)
Inductive text :=
  | Lit (s : string)
  | RoundOf (round : Z) (max : jsval)    (* `Round ${roundCount} of ${maxRoundCount}` *)
  | PressesLeft (n : Z).                 (* `Player's turn... ${n} presses left` *)

(** ** Pads, timers, state *)

Record pad := Pad { color : string; selector : string; sound : string }.

(** A callback passed to [setTimeout]. *)
Inductive task :=
  | RemoveActivated (sel : string)   (* () => pad.selector.classList.remove("activated") *)
  | ActivatePad (c : string)         (* () => activatePad(color) *)
  | PlayHumanTurn                    (* () => playHumanTurn(roundCount) *)
  | PlayComputerTurn.                (* () => playComputerTurn() *)

Record state := State {
  computerSequence : list string;
  playerSequence : list string;
  maxRoundCount : jsval;
  roundCount : Z;
  classList : gset (string * string);     (* (element, class) pairs *)
  textContent : gmap string text;
  played : list string;                   (* sound.play() calls *)
  alerts : list string;                   (* alert(text) calls *)
  timers : list (Z * task)                (* pending (delay, callback) *)
}.

Definition startButton := ".js-start-button".
Definition statusSpan := ".js-status".
Definition heading := ".js-heading".
Definition padContainer := ".js-pad-container".

Definition pads : list pad :=
  [ Pad "red" ".js-pad-red" "../assets/simon-says-sound-1.mp3";
    Pad "green" ".js-pad-green" "../assets/simon-says-sound-2.mp3";
    Pad "blue" ".js-pad-blue" "../assets/simon-says-sound-3.mp3";
    Pad "yellow" ".js-pad-yellow" "../assets/simon-says-sound-4.mp3" ].

(** The state when the script has loaded: the globals as declared; the
    page's own markup (classes and texts) is whatever the document has. *)
Definition initial (cls : gset (string * string)) (txt : gmap string text) : state :=
  State [] [] (JNum 0) 0 cls txt [] [] [].

(** ** The monad: state passing with JavaScript exceptions *)

Inductive completion (A : Type) :=
  | Return (a : A)
  | Throw (err : string).
Arguments Return {A} a.
Arguments Throw {A} err.

Definition M (A : Type) : Type := state → completion A * state.

#[global] Instance M_ret : MRet M := fun A a st => (Return a, st).
#[global] Instance M_bind : MBind M := fun A B k m st =>
  match m st with
  | (Return a, st') => k a st'
  | (Throw err, st') => (Throw err, st')
  end.
Definition throw {A} (err : string) : M A := fun st => (Throw err, st).
Definition gets {A} (f : state → A) : M A := fun st => (Return (f st), st).
Definition modify (f : state → state) : M unit := fun st => (Return tt, f st).

(** State after a computation, whether it returned or threw. *)
Definition exec {A} (m : M A) (st : state) : state := snd (m st).
Definition result {A} (m : M A) (st : state) : completion A := fst (m st).

(** ** Assignments and page effects *)

Definition set_computerSequence (v : list string) (st : state) : state :=
  State v (playerSequence st) (maxRoundCount st) (roundCount st)
        (classList st) (textContent st) (played st) (alerts st) (timers st).
Definition set_playerSequence (v : list string) (st : state) : state :=
  State (computerSequence st) v (maxRoundCount st) (roundCount st)
        (classList st) (textContent st) (played st) (alerts st) (timers st).
Definition set_maxRoundCount (v : jsval) (st : state) : state :=
  State (computerSequence st) (playerSequence st) v (roundCount st)
        (classList st) (textContent st) (played st) (alerts st) (timers st).
Definition set_roundCount (v : Z) (st : state) : state :=
  State (computerSequence st) (playerSequence st) (maxRoundCount st) v
        (classList st) (textContent st) (played st) (alerts st) (timers st).
Definition set_classList (v : gset (string * string)) (st : state) : state :=
  State (computerSequence st) (playerSequence st) (maxRoundCount st) (roundCount st)
        v (textContent st) (played st) (alerts st) (timers st).
Definition set_textContent (v : gmap string text) (st : state) : state :=
  State (computerSequence st) (playerSequence st) (maxRoundCount st) (roundCount st)
        (classList st) v (played st) (alerts st) (timers st).
Definition set_played (v : list string) (st : state) : state :=
  State (computerSequence st) (playerSequence st) (maxRoundCount st) (roundCount st)
        (classList st) (textContent st) v (alerts st) (timers st).
Definition set_alerts (v : list string) (st : state) : state :=
  State (computerSequence st) (playerSequence st) (maxRoundCount st) (roundCount st)
        (classList st) (textContent st) (played st) v (timers st).
Definition set_timers (v : list (Z * task)) (st : state) : state :=
  State (computerSequence st) (playerSequence st) (maxRoundCount st) (roundCount st)
        (classList st) (textContent st) (played st) (alerts st) v.

(** [el.classList.add(c)], [el.classList.remove(c)], [el.classList.contains(c)] *)
Definition classList_add (el c : string) : M unit :=
  modify (fun st => set_classList ({[ (el, c) ]} ∪ classList st) st).
Definition classList_remove (el c : string) : M unit :=
  modify (fun st => set_classList (classList st ∖ {[ (el, c) ]}) st).
Definition has_class (el c : string) (st : state) : bool :=
  bool_decide ((el, c) ∈ classList st).

(** [setTimeout(callback, delay)] *)
Definition setTimeout (t : task) (delay : Z) : M unit :=
  modify (fun st => set_timers (timers st ++ [(delay, t)]) st).

(** [alert(text)] *)
Definition alert (msg : string) : M unit :=
  modify (fun st => set_alerts (alerts st ++ [msg]) st).

(** [try { sound.currentTime = 0; sound.play() ... } catch (e) {}]: the call
    is recorded; whatever the audio device does stays inside the [try]. *)
Definition play (src : string) : M unit :=
  modify (fun st => set_played (played st ++ [src]) st).

(** The game variables, the part of the state the claims call game state. *)
Definition game_vars (st : state) : list string * list string * Z * jsval :=
  (playerSequence st, computerSequence st, roundCount st, maxRoundCount st).

(** ** Level Configuration *)

(** [const levelMap = { 1: 8, 2: 14, 3: 20, 4: 31 }]: the own properties of
    the object literal; property names are strings. *)
Definition levelMap : gmap string Z :=
  <["1" := 8]> (<["2" := 14]> (<["3" := 20]> (<["4" := 31]> ∅))).

(** An object literal inherits from [Object.prototype]; these are its
    property names, each bound to a function or an object. *)
Definition object_prototype : list string :=
  [ "constructor"; "hasOwnProperty"; "isPrototypeOf"; "propertyIsEnumerable";
    "toLocaleString"; "toString"; "valueOf"; "__proto__";
    "__defineGetter__"; "__defineSetter__"; "__lookupGetter__"; "__lookupSetter__" ].

(** The property name an argument is converted to in [levelMap[level]].  An
    integer-valued number prints in decimal (below 10^21; from there on
    JavaScript prints an exponent, which names no property here either). *)
Definition property_key (l : level) : string :=
  match l with
  | LOmitted => "undefined"
  | LNum n => NilEmpty.string_of_int (Z.to_int n)
  | LStr s => s
  end.

(** [obj[key]]: own property first, then the prototype, else [undefined]. *)
Definition get_property (obj : gmap string Z) (key : string) : jsval :=
  match obj !! key with
  | Some n => JNum n
  | None => if bool_decide (key ∈ object_prototype) then JInherited key else JUndefined
  end.

Definition level_message : string := "Please enter level 1, 2, 3, or 4".

(** [function setLevel(level = 1)] *)
Definition setLevel (l : level) : M jsval :=
  let level := match l with LOmitted => LNum 1 | _ => l end in
  if negb (truthy (get_property levelMap (property_key level)))
  then mret (JStr level_message)
  else
    modify (set_maxRoundCount (get_property levelMap (property_key level)));;
    gets maxRoundCount.

(** ** Sequence Generator *)

(** The outcome of reading an array element, or of [getRandomItem]. *)
Inductive nullable (A : Type) :=
  | Null
  | Undefined
  | Item (a : A).
Arguments Null {A}.
Arguments Undefined {A}.
Arguments Item {A} a.

(** [collection[i]] for an integer [i] *)
Definition js_index {A} (collection : list A) (i : Z) : nullable A :=
  if Z.ltb i 0 then Undefined
  else match collection !! Z.to_nat i with
       | Some a => Item a
       | None => Undefined
       end.

(** [function getRandomItem(collection)]; [u] is the value that
    [Math.random()] returns in the call, and the product with the length is
    taken exactly. *)
Definition getRandomItem {A} (collection : list A) (u : Q) : nullable A :=
  if bool_decide (length collection = 0%nat) then Null
  else
    let randomIndex := Qfloor (u * inject_Z (Z.of_nat (length collection))) in
    js_index collection randomIndex.

(** ** Presentation helpers *)

(** The first argument of [setText]: one element, or a NodeList,
    HTMLCollection or array of elements. *)
Inductive target :=
  | Element (el : string)
  | Collection (els : list string).

Definition set_text_of (el : string) (t : text) : M unit :=
  modify (fun st => set_textContent (<[el := t]> (textContent st)) st).

(** [function setText(element, text)]; the result is the [textContent] field
    of the returned object, [None] for [undefined]. *)
Definition setText (element : target) (t : text) : M (option text) :=
  match element with
  | Collection [] => mret None
  | Collection (el :: _) => set_text_of el t;; mret (Some t)
  | Element el => set_text_of el t;; mret (Some t)
  end.

(** [pads.find((p) => p.color === color)] *)
Definition find_pad (signals : list pad) (c : string) : option pad :=
  List.find (fun p => String.eqb (color p) c) signals.

(** [function activatePad(color)] *)
Definition activatePad (signals : list pad) (c : string) : M unit :=
  match find_pad signals c with
  | None => mret tt
  | Some p =>
      classList_add (selector p) "activated";;
      play (sound p);;
      setTimeout (RemoveActivated (selector p)) 500
  end.

(** [sequence.forEach((color, index) => setTimeout(..., (index + 1) * 600))] *)
Fixpoint activatePads_from (index : Z) (sequence : list string) : M unit :=
  match sequence with
  | [] => mret tt
  | c :: rest =>
      setTimeout (ActivatePad c) ((index + 1) * 600);;
      activatePads_from (index + 1) rest
  end.

(** [function activatePads(sequence)] *)
Definition activatePads (sequence : list string) : M unit :=
  activatePads_from 0 sequence.

(** ** Turn State Machine *)

(** [function playComputerTurn()] *)
Definition playComputerTurn (signals : list pad) (u : Q) : M unit :=
  classList_add padContainer "unclickable";;
  setText (Element statusSpan) (Lit "The computer's turn...");;
  rc ← gets roundCount;
  mrc ← gets maxRoundCount;
  setText (Element heading) (RoundOf rc mrc);;
  match getRandomItem signals u with
  | Item randomPad =>
      modify (fun st => set_computerSequence (computerSequence st ++ [color randomPad]) st);;
      cs ← gets computerSequence;
      activatePads cs;;
      rc ← gets roundCount;
      setTimeout PlayHumanTurn (rc * 600 + 1000)
  | _ => throw "TypeError: cannot read properties of null (reading 'color')"
  end.

(** [function playHumanTurn()] *)
Definition playHumanTurn : M unit :=
  classList_remove padContainer "unclickable";;
  cs ← gets computerSequence;
  ps ← gets playerSequence;
  let pressesLeft := Z.of_nat (length cs) - Z.of_nat (length ps) in
  setText (Element statusSpan) (PressesLeft pressesLeft);;
  mret tt.

(** [function resetGame(text)] *)
Definition resetGame (msg : string) : M unit :=
  modify (set_computerSequence []);;
  modify (set_playerSequence []);;
  modify (set_roundCount 0);;
  modify (set_maxRoundCount (JNum 0));;
  alert msg;;
  setText (Element heading) (Lit "Simon Says");;
  classList_remove startButton "hidden";;
  classList_add statusSpan "hidden";;
  classList_add padContainer "unclickable".

(** [function checkRound()] *)
Definition checkRound : M unit :=
  cs ← gets computerSequence;
  mrc ← gets maxRoundCount;
  if bool_decide (JNum (Z.of_nat (length cs)) = mrc)
  then resetGame "You win! Great memory!"
  else
    modify (fun st => set_roundCount (roundCount st + 1) st);;
    modify (set_playerSequence []);;
    setText (Element statusSpan) (Lit "Nice! Keep going!");;
    setTimeout PlayComputerTurn 1000.

(** [function checkPress(color)] *)
Definition checkPress (c : string) : M unit :=
  modify (fun st => set_playerSequence (playerSequence st ++ [c]) st);;
  ps ← gets playerSequence;
  cs ← gets computerSequence;
  let index := (length ps - 1)%nat in
  let remainingPresses := Z.of_nat (length cs) - Z.of_nat (length ps) in
  setText (Element statusSpan) (PressesLeft remainingPresses);;
  if bool_decide (ps !! index ≠ cs !! index)
  then resetGame "Wrong pad! Game over."
  else if Z.eqb remainingPresses 0 then checkRound else mret tt.

(** ** Event handlers *)

(** [function startButtonHandler()]; [u] is what [Math.random()] returns in
    the computer turn it starts.  The returned pair of elements carries no
    state and is left out. *)
Definition startButtonHandler (signals : list pad) (u : Q) : M unit :=
  setLevel LOmitted;;
  modify (set_computerSequence []);;
  modify (set_playerSequence []);;
  modify (set_roundCount 1);;
  classList_add startButton "hidden";;
  classList_remove statusSpan "hidden";;
  playComputerTurn signals u.

(** [function padHandler(event)]; the argument is [event.target.dataset.color]
    ([None] when the attribute is missing), the result is the returned colour
    ([None] for [undefined]). *)
Definition padHandler (signals : list pad) (dataset_color : option string)
  : M (option string) :=
  match dataset_color with
  | None => mret None
  | Some c =>
      if String.eqb c "" then mret None
      else match find_pad signals c with
           | None => mret None
           | Some p =>
               play (sound p);;
               classList_add (selector p) "activated";;
               setTimeout (RemoveActivated (selector p)) 500;;
               checkPress c;;
               mret (Some c)
           end
  end.

(** ** The event loop *)

(** Running a callback that [setTimeout] holds. *)
Definition run_task (signals : list pad) (u : Q) (t : task) : M unit :=
  match t with
  | RemoveActivated sel => classList_remove sel "activated"
  | ActivatePad c => activatePad signals c
  | PlayHumanTurn => playHumanTurn
  | PlayComputerTurn => playComputerTurn signals u
  end.

(** What can happen to the loaded script: a click, a pending callback
    coming due (any of them: the clock is not modelled), or a direct call
    of one of the functions the script exports on [window]. *)
Inductive event :=
  | ClickStart (u : Q)
  | ClickPad (dataset_color : option string)
  | TimerFires (i : nat) (u : Q)
  | CallSetLevel (l : level)
  | CallSetText (element : target) (t : text)
  | CallActivatePad (c : string)
  | CallActivatePads (sequence : list string)
  | CallPlayComputerTurn (u : Q)
  | CallPlayHumanTurn
  | CallCheckPress (c : string)
  | CallCheckRound
  | CallResetGame (msg : string).

Definition fire (signals : list pad) (i : nat) (u : Q) : M unit :=
  pending ← gets timers;
  match pending !! i with
  | None => mret tt
  | Some (_, t) =>
      modify (fun st => set_timers (take i (timers st) ++ drop (S i) (timers st)) st);;
      run_task signals u t
  end.

Definition step (signals : list pad) (ev : event) (st : state) : state :=
  match ev with
  | ClickStart u => exec (startButtonHandler signals u) st
  | ClickPad d => exec (padHandler signals d) st
  | TimerFires i u => exec (fire signals i u) st
  | CallSetLevel l => exec (setLevel l) st
  | CallSetText element t => exec (setText element t) st
  | CallActivatePad c => exec (activatePad signals c) st
  | CallActivatePads sequence => exec (activatePads sequence) st
  | CallPlayComputerTurn u => exec (playComputerTurn signals u) st
  | CallPlayHumanTurn => exec playHumanTurn st
  | CallCheckPress c => exec (checkPress c) st
  | CallCheckRound => exec checkRound st
  | CallResetGame msg => exec (resetGame msg) st
  end.

Inductive reachable (signals : list pad) : state → Prop :=
  | reachable_initial cls txt : reachable signals (initial cls txt)
  | reachable_step ev st :
      reachable signals st → reachable signals (step signals ev st).

Fixpoint run (signals : list pad) (evs : list event) (st : state) : state :=
  match evs with
  | [] => st
  | ev :: rest => run signals rest (step signals ev st)
  end.

(** The invariant of the data model. *)
Definition player_within_target (st : state) : Prop :=
  (length (playerSequence st) ≤ length (computerSequence st))%nat.

(** The timers that [activatePads] leaves behind for a sequence: one
    [ActivatePad] per colour, 600 ms apart. *)
Fixpoint playback_from (index : Z) (sequence : list string) : list (Z * task) :=
  match sequence with
  | [] => []
  | c :: rest => ((index + 1) * 600, ActivatePad c) :: playback_from (index + 1) rest
  end.

(** The pad's own feedback in [padHandler], before the press is checked. *)
Definition pad_feedback (p : pad) : M unit :=
  play (sound p);;
  classList_add (selector p) "activated";;
  setTimeout (RemoveActivated (selector p)) 500.

(** The state in which [checkPress] compares: the press is appended and the
    status line updated. *)
Definition pressed (c : string) (st : state) : state :=
  State (computerSequence st) (playerSequence st ++ [c])
        (maxRoundCount st) (roundCount st) (classList st)
        (<[statusSpan :=
             PressesLeft (Z.of_nat (length (computerSequence st))
                          - Z.of_nat (length (playerSequence st ++ [c])))]>
           (textContent st))
        (played st) (alerts st) (timers st).

(** The player pressing the pads of a whole sequence, one after the other. *)
Definition press_all (signals : list pad) (sequence : list string) (st : state) : state :=
  run signals (map (fun c => ClickPad (Some c)) sequence) st.

(** What the page itself can do to the script: clicks and due callbacks. *)
Definition ui_event (ev : event) : bool :=
  match ev with
  | ClickStart _ | ClickPad _ | TimerFires _ _ => true
  | _ => false
  end.

(** The player's input repeats the beginning of the target sequence, and
    the target sequence is made of pad colours. *)
Definition well_formed (signals : list pad) (st : state) : Prop :=
  playerSequence st `prefix_of` computerSequence st
  ∧ Forall (fun c => ∃ p, p ∈ signals ∧ color p = c) (computerSequence st).

(** The counters as the page can leave them. *)
Definition counters_in_range (st : state) : Prop :=
  (maxRoundCount st = JNum 0 ∨ maxRoundCount st = JNum 8) ∧ (0 ≤ roundCount st)%Z.

(** A computation that only ever adds to the pending callbacks. *)
Definition keeps_timers {A} (m : M A) : Prop :=
  ∀ st, timers st `prefix_of` timers (exec m st).

(** * Properties *)

(** ** Running the monad, and the random index *)

Ltac run_monad :=
  unfold exec, result, mbind, M_bind, mret, M_ret, modify, gets, throw in *; simpl in *.

Lemma Qfloor_scaled_range (u : Q) (n : Z) :
  (0 <= u)%Q → (u < 1)%Q → 0 < n → 0 ≤ Qfloor (u * inject_Z n) < n.
Proof.
  intros H0 H1 Hn.
  assert (Hn' : (inject_Z 0 < inject_Z n)%Q) by (rewrite <- Zlt_Qlt; exact Hn).
  split.
  - change 0 with (Qfloor 0). apply Qfloor_resp_le.
    apply Qmult_le_0_compat; [exact H0 | apply Qlt_le_weak; exact Hn'].
  - rewrite Zlt_Qlt. apply Qle_lt_trans with (u * inject_Z n)%Q.
    + apply Qfloor_le.
    + rewrite <- (Qmult_1_l (inject_Z n)) at 2.
      apply Qmult_lt_compat_r; assumption.
Qed.

Lemma js_index_in_range {A} (l : list A) (i : Z) :
  0 ≤ i < Z.of_nat (length l) → ∃ a, js_index l i = Item a ∧ a ∈ l.
Proof.
  intros [Hlo Hhi]. unfold js_index.
  destruct (Z.ltb_spec i 0) as [?|_]; [lia|].
  destruct (l !! Z.to_nat i) as [a|] eqn:E.
  - exists a. split; [reflexivity|]. eapply list_elem_of_lookup_2; eassumption.
  - apply lookup_ge_None in E. lia.
Qed.

Lemma getRandomItem_nonempty {A} (l : list A) (u : Q) :
  l ≠ [] → (0 <= u)%Q → (u < 1)%Q → ∃ a, getRandomItem l u = Item a ∧ a ∈ l.
Proof.
  intros Hne H0 H1. unfold getRandomItem.
  case_bool_decide as Hlen.
  - destruct l; [congruence | discriminate].
  - apply js_index_in_range. apply Qfloor_scaled_range; try assumption.
    destruct l; [congruence | simpl; lia].
Qed.

Lemma activatePads_from_timers (sequence : list string) :
  ∀ index st,
    activatePads_from index sequence st
    = (Return tt, set_timers (timers st ++ playback_from index sequence) st).
Proof.
  induction sequence as [|c rest IH]; intros index st.
  - simpl. unfold mret, M_ret. rewrite app_nil_r. destruct st; reflexivity.
  - simpl. unfold setTimeout. run_monad. rewrite IH. simpl.
    rewrite <- app_assoc. reflexivity.
Qed.

Lemma playComputerTurn_item signals u st p :
  getRandomItem signals u = Item p →
  playComputerTurn signals u st
  = (Return tt,
     State (computerSequence st ++ [color p]) (playerSequence st)
           (maxRoundCount st) (roundCount st)
           ({[ (padContainer, "unclickable") ]} ∪ classList st)
           (<[heading := RoundOf (roundCount st) (maxRoundCount st)]>
              (<[statusSpan := Lit "The computer's turn..."]> (textContent st)))
           (played st) (alerts st)
           (timers st ++ playback_from 0 (computerSequence st ++ [color p])
                      ++ [(roundCount st * 600 + 1000, PlayHumanTurn)])).
Proof.
  intros Hitem. unfold playComputerTurn, classList_add, setText, set_text_of, setTimeout, activatePads.
  rewrite Hitem. run_monad. rewrite activatePads_from_timers. simpl.
  rewrite <- app_assoc. reflexivity.
Qed.

Lemma playComputerTurn_no_item signals u st :
  (∀ p, getRandomItem signals u ≠ Item p) →
  result (playComputerTurn signals u) st
    = Throw "TypeError: cannot read properties of null (reading 'color')"
  ∧ game_vars (exec (playComputerTurn signals u) st) = game_vars st
  ∧ timers (exec (playComputerTurn signals u) st) = timers st.
Proof.
  intros Hno. unfold playComputerTurn, classList_add, setText, set_text_of.
  destruct (getRandomItem signals u) as [| |p] eqn:E; [| |exfalso; eapply Hno; reflexivity];
    run_monad; repeat split; reflexivity.
Qed.

Lemma resetGame_spec msg st :
  resetGame msg st
  = (Return tt,
     State [] [] (JNum 0) 0
           ({[ (padContainer, "unclickable") ]}
              ∪ ({[ (statusSpan, "hidden") ]}
                   ∪ classList st ∖ {[ (startButton, "hidden") ]}))
           (<[heading := Lit "Simon Says"]> (textContent st))
           (played st) (alerts st ++ [msg]) (timers st)).
Proof. reflexivity. Qed.

Lemma checkRound_win st :
  maxRoundCount st = JNum (Z.of_nat (length (computerSequence st))) →
  checkRound st = resetGame "You win! Great memory!" st.
Proof.
  intros Hmax. unfold checkRound. run_monad.
  rewrite bool_decide_eq_true_2 by (symmetry; exact Hmax). reflexivity.
Qed.

Lemma checkRound_next st :
  maxRoundCount st ≠ JNum (Z.of_nat (length (computerSequence st))) →
  checkRound st
  = (Return tt,
     State (computerSequence st) [] (maxRoundCount st) (roundCount st + 1)
           (classList st) (<[statusSpan := Lit "Nice! Keep going!"]> (textContent st))
           (played st) (alerts st) (timers st ++ [(1000, PlayComputerTurn)])).
Proof.
  intros Hmax. unfold checkRound. run_monad.
  rewrite bool_decide_eq_false_2 by (intros E; apply Hmax; symmetry; exact E).
  reflexivity.
Qed.

Lemma fire_last signals u st d t :
  fire signals (length (timers st)) u (set_timers (timers st ++ [(d, t)]) st)
  = run_task signals u t st.
Proof.
  unfold fire. run_monad.
  rewrite lookup_app_r by lia. rewrite Nat.sub_diag. simpl.
  rewrite take_app_length, drop_ge by (rewrite length_app; simpl; lia).
  rewrite app_nil_r. destruct st; reflexivity.
Qed.

(** C1. Round evaluation: when the target sequence has reached
    [maxRoundCount] entries, [checkRound] is [resetGame] with the win
    message, and the game variables are back at their initial values.
    Otherwise it adds one to [roundCount], empties [playerSequence], leaves
    the target sequence alone and hands [playComputerTurn] to [setTimeout];
    when that callback runs, exactly one colour of a pad is appended to
    [computerSequence], the pad container is made unclickable and the
    playback of the whole sequence is scheduled. *)
Theorem checkRound_win_or_next_round (signals : list pad) (u : Q) (st : state) :
  signals ≠ [] → (0 <= u)%Q → (u < 1)%Q →
  if bool_decide (maxRoundCount st = JNum (Z.of_nat (length (computerSequence st))))
  then
    checkRound st = resetGame "You win! Great memory!" st
    ∧ game_vars (exec checkRound st) = ([], [], 0, JNum 0)
    ∧ alerts (exec checkRound st) = alerts st ++ ["You win! Great memory!"]
  else
    let st1 := exec checkRound st in
    let st2 := exec (fire signals (length (timers st)) u) st1 in
    result checkRound st = Return tt
    ∧ roundCount st1 = roundCount st + 1
    ∧ playerSequence st1 = []
    ∧ computerSequence st1 = computerSequence st
    ∧ maxRoundCount st1 = maxRoundCount st
    ∧ alerts st1 = alerts st
    ∧ timers st1 = timers st ++ [(1000, PlayComputerTurn)]
    ∧ result (fire signals (length (timers st)) u) st1 = Return tt
    ∧ (∃ p, p ∈ signals
          ∧ computerSequence st2 = computerSequence st ++ [color p]
          ∧ timers st2
            = timers st ++ playback_from 0 (computerSequence st ++ [color p])
                        ++ [((roundCount st + 1) * 600 + 1000, PlayHumanTurn)])
    ∧ playerSequence st2 = []
    ∧ roundCount st2 = roundCount st + 1
    ∧ has_class padContainer "unclickable" st2 = true.
Proof.
  intros Hne H0 H1.
  case_bool_decide as Hmax.
  - rewrite (checkRound_win st Hmax). unfold exec. rewrite (checkRound_win st Hmax).
    rewrite resetGame_spec. simpl. repeat split; reflexivity.
  - destruct (getRandomItem_nonempty signals u Hne H0 H1) as (p & Hitem & Hin).
    pose proof (checkRound_next st Hmax) as Hnext.
    cbv zeta. unfold exec, result. rewrite Hnext. cbn [fst snd].
    pose proof (fire_last signals u
      (State (computerSequence st) [] (maxRoundCount st) (roundCount st + 1)
             (classList st) (<[statusSpan := Lit "Nice! Keep going!"]> (textContent st))
             (played st) (alerts st) (timers st)) 1000 PlayComputerTurn) as Hfire.
    unfold set_timers in Hfire.
    cbn [timers computerSequence playerSequence maxRoundCount roundCount
         classList textContent played alerts] in Hfire.
    rewrite Hfire. cbn [run_task]. rewrite (playComputerTurn_item _ _ _ p Hitem).
    cbn [fst snd timers set_timers computerSequence playerSequence maxRoundCount roundCount
         classList textContent played alerts].
    repeat split; try reflexivity.
    + exists p. split; [exact Hin|]. split; reflexivity.
    + unfold has_class. cbn [classList]. apply bool_decide_eq_true_2. set_solver.
Qed.

Lemma checkRound_win_or_next_round_witness :
  (game_vars (exec checkRound (State ["red"] ["red"] (JNum 1) 1 ∅ ∅ [] [] []))
     = ([], [], 0, JNum 0))
  ∧ (roundCount (exec checkRound (State ["red"] ["red"] (JNum 8) 1 ∅ ∅ [] [] [])) = 2).
Proof.
  split.
  - pose proof (checkRound_win_or_next_round pads 0
                  (State ["red"] ["red"] (JNum 1) 1 ∅ ∅ [] [] [])) as H.
    apply H; [discriminate | discriminate | reflexivity].
  - pose proof (checkRound_win_or_next_round pads 0
                  (State ["red"] ["red"] (JNum 8) 1 ∅ ∅ [] [] [])) as H.
    apply H; [discriminate | discriminate | reflexivity].
Defined.

(** ** Input Validator *)

Lemma last_pressed_lookup (ps : list string) (c : string) :
  (ps ++ [c]) !! (length (ps ++ [c]) - 1)%nat = Some c.
Proof.
  rewrite length_app. simpl.
  replace (length ps + 1 - 1)%nat with (length ps) by lia.
  rewrite lookup_app_r by lia. rewrite Nat.sub_diag. reflexivity.
Qed.

Lemma checkPress_spec c st :
  checkPress c st
  = if bool_decide (computerSequence st !! length (playerSequence st) ≠ Some c)
    then resetGame "Wrong pad! Game over." (pressed c st)
    else if Z.eqb (Z.of_nat (length (computerSequence st))
                   - Z.of_nat (length (playerSequence st ++ [c]))) 0
         then checkRound (pressed c st)
         else (Return tt, pressed c st).
Proof.
  unfold checkPress, setText, set_text_of. run_monad.
  rewrite last_pressed_lookup.
  replace (length (playerSequence st ++ [c]) - 1)%nat with (length (playerSequence st))
    by (rewrite length_app; simpl; lia).
  fold (pressed c st).
  destruct (decide (computerSequence st !! length (playerSequence st) = Some c)) as [E|E].
  - rewrite !bool_decide_eq_false_2 by (intros H; apply H; congruence).
    destruct (Z.eqb _ _); reflexivity.
  - rewrite !bool_decide_eq_true_2 by congruence. reflexivity.
Qed.

(** C2. A press that differs from the target entry at the position it
    fills (or that has no target entry to match) ends the game in the same
    call, however many presses the round still wanted: the loss is
    announced by [alert], both sequences are emptied, [roundCount] and
    [maxRoundCount] are 0, no further callback is scheduled, and the page is
    back to showing the start button with the pads unclickable. *)
Theorem checkPress_mismatch_resets (c : string) (st : state) :
  computerSequence st !! length (playerSequence st) ≠ Some c →
  let st' := exec (checkPress c) st in
  result (checkPress c) st = Return tt
  ∧ game_vars st' = ([], [], 0, JNum 0)
  ∧ alerts st' = alerts st ++ ["Wrong pad! Game over."]
  ∧ timers st' = timers st
  ∧ has_class startButton "hidden" st' = false
  ∧ has_class padContainer "unclickable" st' = true.
Proof.
  intros Hmis. cbv zeta. unfold exec, result.
  rewrite checkPress_spec, bool_decide_eq_true_2 by exact Hmis.
  rewrite resetGame_spec. cbn [fst snd]. unfold game_vars, has_class. cbn.
  repeat split.
  - apply bool_decide_eq_false_2.
    rewrite !elem_of_union, elem_of_difference, !elem_of_singleton.
    intros [E | [E | [_ E]]]; [discriminate E | discriminate E | apply E; reflexivity].
  - apply bool_decide_eq_true_2.
    apply elem_of_union_l, elem_of_singleton. reflexivity.
Qed.

Lemma checkPress_mismatch_resets_witness :
  game_vars (exec (checkPress "green") (State ["red"] [] (JNum 8) 1 ∅ ∅ [] [] []))
  = ([], [], 0, JNum 0)
  ∧ alerts (exec (checkPress "green") (State ["red"] [] (JNum 8) 1 ∅ ∅ [] [] []))
    = ["Wrong pad! Game over."].
Proof.
  pose proof (checkPress_mismatch_resets "green"
                (State ["red"] [] (JNum 8) 1 ∅ ∅ [] [] [])) as H.
  cbv zeta in H.
  destruct H as (_ & Hvars & Halerts & _); [discriminate|].
  split; [exact Hvars | exact Halerts].
Defined.

(** ** The invariant of the data model *)

Lemma setLevel_omitted st :
  setLevel LOmitted st = (Return (JNum 8), set_maxRoundCount (JNum 8) st).
Proof. reflexivity. Qed.

Lemma setLevel_sequences l st :
  playerSequence (exec (setLevel l) st) = playerSequence st
  ∧ computerSequence (exec (setLevel l) st) = computerSequence st.
Proof.
  unfold setLevel, exec.
  destruct (negb (truthy _)); run_monad; split; reflexivity.
Qed.

Lemma setText_sequences element t st :
  playerSequence (exec (setText element t) st) = playerSequence st
  ∧ computerSequence (exec (setText element t) st) = computerSequence st.
Proof. destruct element as [el|[|el els]]; split; reflexivity. Qed.

Lemma activatePad_sequences signals c st :
  playerSequence (exec (activatePad signals c) st) = playerSequence st
  ∧ computerSequence (exec (activatePad signals c) st) = computerSequence st.
Proof. unfold activatePad. destruct (find_pad signals c); split; reflexivity. Qed.

Lemma activatePads_sequences sequence st :
  playerSequence (exec (activatePads sequence) st) = playerSequence st
  ∧ computerSequence (exec (activatePads sequence) st) = computerSequence st.
Proof.
  unfold activatePads, exec. rewrite activatePads_from_timers. split; reflexivity.
Qed.

Lemma playComputerTurn_sequences signals u st :
  playerSequence (exec (playComputerTurn signals u) st) = playerSequence st
  ∧ (computerSequence (exec (playComputerTurn signals u) st) = computerSequence st
     ∨ ∃ p, computerSequence (exec (playComputerTurn signals u) st)
            = computerSequence st ++ [color p]).
Proof.
  destruct (getRandomItem signals u) as [| |p] eqn:E.
  - destruct (playComputerTurn_no_item signals u st) as (_ & Hvars & _);
      [rewrite E; discriminate|].
    unfold game_vars in Hvars. split; [|left]; congruence.
  - destruct (playComputerTurn_no_item signals u st) as (_ & Hvars & _);
      [rewrite E; discriminate|].
    unfold game_vars in Hvars. split; [|left]; congruence.
  - unfold exec. rewrite (playComputerTurn_item _ _ _ p E). split; [reflexivity|].
    right. exists p. reflexivity.
Qed.

Lemma playComputerTurn_invariant signals u st :
  player_within_target st → player_within_target (exec (playComputerTurn signals u) st).
Proof.
  unfold player_within_target. intros Hinv.
  destruct (playComputerTurn_sequences signals u st) as (Hps & [Hcs | (p & Hcs)]);
    rewrite Hps, Hcs; [exact Hinv|].
  rewrite length_app. simpl. lia.
Qed.

Lemma resetGame_invariant msg st : player_within_target (exec (resetGame msg) st).
Proof. unfold player_within_target. reflexivity. Qed.

Lemma checkRound_invariant st : player_within_target (exec checkRound st).
Proof.
  unfold player_within_target, exec.
  destruct (decide (maxRoundCount st = JNum (Z.of_nat (length (computerSequence st)))))
    as [Hmax|Hmax].
  - rewrite (checkRound_win st Hmax). apply resetGame_invariant.
  - rewrite (checkRound_next st Hmax). simpl. lia.
Qed.

Lemma checkPress_invariant c st : player_within_target (exec (checkPress c) st).
Proof.
  unfold exec. rewrite checkPress_spec.
  case_bool_decide as Hmis.
  - apply resetGame_invariant.
  - destruct (Z.eqb _ _).
    + apply checkRound_invariant.
    + unfold player_within_target. simpl.
      assert (Hlt : (length (playerSequence st) < length (computerSequence st))%nat).
      { eapply lookup_lt_Some. exact Hmis. }
      rewrite length_app. simpl. lia.
Qed.

Lemma padHandler_invariant signals d st :
  player_within_target st → player_within_target (exec (padHandler signals d) st).
Proof.
  intros Hinv. unfold padHandler.
  destruct d as [c|]; [|exact Hinv].
  destruct (String.eqb c ""); [exact Hinv|].
  destruct (find_pad signals c) as [p|]; [|exact Hinv].
  unfold exec. run_monad.
  match goal with |- context [checkPress c ?s] =>
    pose proof (checkPress_invariant c s) as H; unfold exec in H;
    destruct (checkPress c s) as [[[]|err] s'] end; exact H.
Qed.

Lemma startButtonHandler_spec signals u st :
  startButtonHandler signals u st
  = playComputerTurn signals u
      (State [] [] (JNum 8) 1
             (({[ (startButton, "hidden") ]} ∪ classList st) ∖ {[ (statusSpan, "hidden") ]})
             (textContent st) (played st) (alerts st) (timers st)).
Proof. reflexivity. Qed.

Lemma startButtonHandler_invariant signals u st :
  player_within_target (exec (startButtonHandler signals u) st).
Proof.
  unfold exec. rewrite startButtonHandler_spec.
  apply playComputerTurn_invariant. unfold player_within_target. simpl. lia.
Qed.
Lemma run_task_invariant signals u t st :
  player_within_target st → player_within_target (exec (run_task signals u t) st).
Proof.
  intros Hinv. destruct t as [sel|c| |]; simpl.
  - exact Hinv.
  - unfold player_within_target.
    destruct (activatePad_sequences signals c st) as [-> ->]. exact Hinv.
  - exact Hinv.
  - apply playComputerTurn_invariant. exact Hinv.
Qed.

Lemma fire_invariant signals i u st :
  player_within_target st → player_within_target (exec (fire signals i u) st).
Proof.
  intros Hinv. unfold fire, exec. run_monad.
  destruct (timers st !! i) as [[d t]|]; [|exact Hinv].
  run_monad.
  match goal with |- context [run_task signals u t ?s] =>
    pose proof (run_task_invariant signals u t s) as H; unfold exec in H;
    destruct (run_task signals u t s) as [[[]|err] s'] end; apply H; exact Hinv.
Qed.

Lemma step_invariant signals ev st :
  player_within_target st → player_within_target (step signals ev st).
Proof.
  intros Hinv. destruct ev; simpl.
  - apply startButtonHandler_invariant.
  - apply padHandler_invariant, Hinv.
  - apply fire_invariant, Hinv.
  - unfold player_within_target. destruct (setLevel_sequences l st) as [-> ->]. exact Hinv.
  - unfold player_within_target.
    destruct (setText_sequences element t st) as [-> ->]. exact Hinv.
  - unfold player_within_target.
    destruct (activatePad_sequences signals c st) as [-> ->]. exact Hinv.
  - unfold player_within_target.
    destruct (activatePads_sequences sequence st) as [-> ->]. exact Hinv.
  - apply playComputerTurn_invariant, Hinv.
  - exact Hinv.
  - apply checkPress_invariant.
  - apply checkRound_invariant.
  - apply resetGame_invariant.
Qed.

Lemma run_reachable signals evs :
  ∀ st, reachable signals st → reachable signals (run signals evs st).
Proof.
  induction evs as [|ev rest IH]; intros st Hreach; simpl.
  - exact Hreach.
  - apply IH, reachable_step, Hreach.
Qed.

(** C3. In every state reached from the loaded script by clicks, timer
    callbacks and calls of the exported functions, [playerSequence] is no
    longer than [computerSequence]; and a press that matches and brings the
    two lengths level is answered by [checkRound] in the same call. *)
Theorem player_within_target_always (signals : list pad) (st : state) :
  reachable signals st →
  player_within_target st
  ∧ ∀ c, computerSequence st !! length (playerSequence st) = Some c →
         length (playerSequence st ++ [c]) = length (computerSequence st) →
         checkPress c st = checkRound (pressed c st).
Proof.
  intros Hreach. split.
  - induction Hreach as [cls txt | ev st Hreach IH].
    + unfold player_within_target. simpl. lia.
    + apply step_invariant, IH.
  - intros c Hmatch Hlen. rewrite checkPress_spec.
    rewrite bool_decide_eq_false_2 by (intros H; apply H; exact Hmatch).
    rewrite Hlen, Z.sub_diag. reflexivity.
Qed.

Lemma player_within_target_always_witness :
  player_within_target
    (run pads [ClickStart 0; TimerFires 0 0; TimerFires 1 0; TimerFires 0 0;
               ClickPad (Some "red")] (initial ∅ ∅)).
Proof.
  apply (player_within_target_always pads).
  apply run_reachable, reachable_initial.
Defined.

(** ** Level Configuration *)

Lemma number_key_inj (n m : Z) :
  property_key (LNum n) = property_key (LNum m) → n = m.
Proof.
  simpl. intros E.
  assert (H : Some (Z.to_int n) = Some (Z.to_int m)).
  { rewrite <- !NilEmpty.isi. rewrite E. reflexivity. }
  injection H as H. rewrite <- (DecimalZ.of_to n), <- (DecimalZ.of_to m), H. reflexivity.
Qed.

Lemma number_key_not_inherited (n : Z) : property_key (LNum n) ∉ object_prototype.
Proof.
  intros Hin. simpl in Hin.
  pose proof (NilEmpty.isi (Z.to_int n)) as Hparse.
  unfold object_prototype in Hin.
  repeat (apply elem_of_cons in Hin as [Hin | Hin];
          [rewrite Hin in Hparse; discriminate Hparse|]).
  apply elem_of_nil in Hin. exact Hin.
Qed.

Lemma levelMap_number (n : Z) :
  get_property levelMap (property_key (LNum n))
  = if Z.eqb n 1 then JNum 8
    else if Z.eqb n 2 then JNum 14
    else if Z.eqb n 3 then JNum 20
    else if Z.eqb n 4 then JNum 31
    else JUndefined.
Proof.
  destruct (Z.eqb_spec n 1) as [->|H1]; [reflexivity|].
  destruct (Z.eqb_spec n 2) as [->|H2]; [reflexivity|].
  destruct (Z.eqb_spec n 3) as [->|H3]; [reflexivity|].
  destruct (Z.eqb_spec n 4) as [->|H4]; [reflexivity|].
  unfold get_property, levelMap.
  rewrite !lookup_insert_ne, lookup_empty.
  - rewrite bool_decide_eq_false_2 by apply number_key_not_inherited. reflexivity.
  - intros E. apply H4. symmetry. apply number_key_inj. exact E.
  - intros E. apply H3. symmetry. apply number_key_inj. exact E.
  - intros E. apply H2. symmetry. apply number_key_inj. exact E.
  - intros E. apply H1. symmetry. apply number_key_inj. exact E.
Qed.

(** The level table, as the comment above [setLevel] gives it. *)
Lemma setLevel_table (st : state) :
  setLevel (LNum 1) st = (Return (JNum 8), set_maxRoundCount (JNum 8) st)
  ∧ setLevel (LNum 2) st = (Return (JNum 14), set_maxRoundCount (JNum 14) st)
  ∧ setLevel (LNum 3) st = (Return (JNum 20), set_maxRoundCount (JNum 20) st)
  ∧ setLevel (LNum 4) st = (Return (JNum 31), set_maxRoundCount (JNum 31) st).
Proof. repeat split; reflexivity. Qed.

(** Any other number is answered with the message, and nothing is stored. *)
Lemma setLevel_other_number (n : Z) (st : state) :
  n ≠ 1 → n ≠ 2 → n ≠ 3 → n ≠ 4 →
  setLevel (LNum n) st = (Return (JStr level_message), st).
Proof.
  intros H1 H2 H3 H4. unfold setLevel. rewrite levelMap_number.
  destruct (Z.eqb_spec n 1); [contradiction|].
  destruct (Z.eqb_spec n 2); [contradiction|].
  destruct (Z.eqb_spec n 3); [contradiction|].
  destruct (Z.eqb_spec n 4); [contradiction|].
  reflexivity.
Qed.

(** C4. [setLevel] maps 1, 2, 3, 4 to 8, 14, 20, 31 and stores the result,
    defaults to level 1, and answers a number such as 5 with the message
    (every other number, by [setLevel_other_number]); but a level that names
    a property the table inherits from [Object.prototype] is not rejected: for ["constructor"] the call returns
    the inherited member, neither the message nor a number, and stores it in
    [maxRoundCount]. *)
Theorem setLevel_inherited_name_not_rejected (st : state) :
  result (setLevel (LStr "constructor")) st = Return (JInherited "constructor")
  ∧ maxRoundCount (exec (setLevel (LStr "constructor")) st) = JInherited "constructor"
  ∧ result (setLevel (LStr "constructor")) st ≠ Return (JStr level_message)
  ∧ setLevel (LNum 5) st = (Return (JStr level_message), st)
  ∧ setLevel (LNum 1) st = (Return (JNum 8), set_maxRoundCount (JNum 8) st)
  ∧ setLevel (LNum 2) st = (Return (JNum 14), set_maxRoundCount (JNum 14) st)
  ∧ setLevel (LNum 3) st = (Return (JNum 20), set_maxRoundCount (JNum 20) st)
  ∧ setLevel (LNum 4) st = (Return (JNum 31), set_maxRoundCount (JNum 31) st)
  ∧ setLevel LOmitted st = (Return (JNum 8), set_maxRoundCount (JNum 8) st).
Proof.
  split; [reflexivity|]. split; [reflexivity|]. split; [discriminate|].
  repeat split; reflexivity.
Qed.

(** C10. A game started with the start button always plays for 8 rounds:
    [startButtonHandler] takes no level and calls [setLevel()] with the
    argument omitted, so whatever the state and the page held before,
    [maxRoundCount] is 8 when the handler is done (and [roundCount] is 1). *)
Theorem startButtonHandler_always_level_1 (signals : list pad) (u : Q) (st : state) :
  maxRoundCount (exec (startButtonHandler signals u) st) = JNum 8
  ∧ roundCount (exec (startButtonHandler signals u) st) = 1
  ∧ maxRoundCount (exec (startButtonHandler signals u) st)
    = maxRoundCount (exec (setLevel LOmitted) st).
Proof.
  unfold exec at 1 2 3. rewrite startButtonHandler_spec.
  destruct (getRandomItem signals u) as [| |p] eqn:E.
  - destruct (playComputerTurn_no_item signals u
      (State [] [] (JNum 8) 1
             (({[ (startButton, "hidden") ]} ∪ classList st) ∖ {[ (statusSpan, "hidden") ]})
             (textContent st) (played st) (alerts st) (timers st))) as (_ & Hvars & _);
      [rewrite E; discriminate|].
    unfold game_vars, exec in Hvars. injection Hvars as _ _ Hrc Hmrc.
    rewrite Hrc, Hmrc. repeat split; reflexivity.
  - destruct (playComputerTurn_no_item signals u
      (State [] [] (JNum 8) 1
             (({[ (startButton, "hidden") ]} ∪ classList st) ∖ {[ (statusSpan, "hidden") ]})
             (textContent st) (played st) (alerts st) (timers st))) as (_ & Hvars & _);
      [rewrite E; discriminate|].
    unfold game_vars, exec in Hvars. injection Hvars as _ _ Hrc Hmrc.
    rewrite Hrc, Hmrc. repeat split; reflexivity.
  - rewrite (playComputerTurn_item _ _ _ p E). repeat split; reflexivity.
Qed.

(** ** Sequence Generator *)

(** C7. With no signals at all, [getRandomItem] returns [null], whatever
    [Math.random()] gives, and a computer turn leaves [computerSequence] (and
    the other game variables) as they were: it stops at [randomPad.color]
    with a TypeError, before the push, and schedules nothing. *)
Theorem empty_signal_set_is_harmless (u : Q) (st : state) :
  (∀ A : Type, getRandomItem (@nil A) u = Null)
  ∧ computerSequence (exec (playComputerTurn [] u) st) = computerSequence st
  ∧ game_vars (exec (playComputerTurn [] u) st) = game_vars st
  ∧ timers (exec (playComputerTurn [] u) st) = timers st
  ∧ result (playComputerTurn [] u) st
    = Throw "TypeError: cannot read properties of null (reading 'color')".
Proof.
  split; [reflexivity|].
  destruct (playComputerTurn_no_item [] u st) as (Hres & Hvars & Htimers);
    [discriminate|].
  unfold game_vars in Hvars.
  repeat split; try assumption; congruence.
Qed.

(** ** Presentation helpers *)

(** C9. [setText] on an empty collection changes nothing and returns an
    object whose [textContent] is [undefined]; on a non-empty collection it
    sets the text of the first element, on a single element the text of that
    element, and returns an object carrying the text; the texts of all other
    elements stay as they were, and none of the three calls throws. *)
Theorem setText_targets (t : text) (st : state) :
  setText (Collection []) t st = (Return None, st)
  ∧ (∀ el els,
       result (setText (Collection (el :: els)) t) st = Return (Some t)
       ∧ textContent (exec (setText (Collection (el :: els)) t) st) !! el = Some t
       ∧ delete el (textContent (exec (setText (Collection (el :: els)) t) st))
         = delete el (textContent st))
  ∧ (∀ el,
       result (setText (Element el) t) st = Return (Some t)
       ∧ textContent (exec (setText (Element el) t) st) !! el = Some t
       ∧ delete el (textContent (exec (setText (Element el) t) st))
         = delete el (textContent st)).
Proof.
  split; [reflexivity|].
  split; intros el; [intros els|];
    (split; [reflexivity|]; split; [apply lookup_insert_eq | apply delete_insert_eq]).
Qed.

(** ** Event handlers *)

Lemma find_pad_none signals c :
  (∀ p, p ∈ signals → color p ≠ c) → find_pad signals c = None.
Proof.
  intros Hno. unfold find_pad.
  destruct (List.find _ signals) as [p|] eqn:E; [|reflexivity].
  apply List.find_some in E as [Hin Heq].
  apply String.eqb_eq in Heq. exfalso.
  apply (Hno p); [apply list_elem_of_In; exact Hin | exact Heq].
Qed.

(** C8. A press whose target has no colour in its dataset (missing or
    empty), or a colour that no pad has, makes [padHandler] return
    [undefined] without throwing, and leaves the whole state (game
    variables, page, timers) exactly as it was. *)
Theorem padHandler_ignores_unknown_signal
    (signals : list pad) (dataset_color : option string) (st : state) :
  dataset_color = None
  ∨ dataset_color = Some ""
  ∨ (∃ c, dataset_color = Some c ∧ ∀ p, p ∈ signals → color p ≠ c) →
  padHandler signals dataset_color st = (Return None, st).
Proof.
  intros [-> | [-> | (c & -> & Hno)]]; [reflexivity | reflexivity |].
  unfold padHandler. destruct (String.eqb c ""); [reflexivity|].
  rewrite (find_pad_none signals c Hno). reflexivity.
Qed.

Lemma padHandler_ignores_unknown_signal_witness :
  padHandler pads (Some "purple")
    (State ["red"] [] (JNum 8) 1 ∅ ∅ [] [] [])
  = (Return None, State ["red"] [] (JNum 8) 1 ∅ ∅ [] [] []).
Proof.
  apply padHandler_ignores_unknown_signal.
  right. right. exists "purple". split; [reflexivity|].
  intros p Hin. unfold pads in Hin.
  repeat (apply elem_of_cons in Hin as [-> | Hin]; [discriminate|]).
  apply elem_of_nil in Hin. contradiction.
Defined.

(** ** Presses outside the player's turn *)

Lemma checkRound_returns st : result checkRound st = Return tt.
Proof.
  unfold result.
  destruct (decide (maxRoundCount st = JNum (Z.of_nat (length (computerSequence st)))))
    as [Hmax|Hmax].
  - rewrite (checkRound_win st Hmax). reflexivity.
  - rewrite (checkRound_next st Hmax). reflexivity.
Qed.

Lemma checkPress_returns c st : result (checkPress c) st = Return tt.
Proof.
  unfold result. rewrite checkPress_spec.
  case_bool_decide; [reflexivity|].
  destruct (Z.eqb _ _); [apply checkRound_returns | reflexivity].
Qed.

Lemma padHandler_known_signal signals c p st :
  c ≠ "" → find_pad signals c = Some p →
  padHandler signals (Some c) st
  = (Return (Some c), exec (checkPress c) (exec (pad_feedback p) st)).
Proof.
  intros Hc Hp. unfold padHandler.
  rewrite (proj2 (String.eqb_neq c "") Hc), Hp.
  pose proof (checkPress_returns c (exec (pad_feedback p) st)) as Hret.
  unfold pad_feedback, play, classList_add, setTimeout in *. run_monad.
  destruct (checkPress c _) as [r s'] eqn:E. simpl in Hret. subst r. reflexivity.
Qed.

(** C6, as the script has it. [padHandler] does not look at the phase: a
    press that carries the colour of a pad is forwarded to [checkPress] in
    every state, after the pad's own sound and highlight, and the colour is
    returned.  What the script does for the phases is to mark the pad
    container: [playComputerTurn] and [resetGame] leave it with the class
    "unclickable", [playHumanTurn] without it. *)
Theorem padHandler_forwards_in_every_phase
    (signals : list pad) (c : string) (p : pad) (u : Q) (msg : string) (st : state) :
  c ≠ "" → find_pad signals c = Some p →
  padHandler signals (Some c) st
  = (Return (Some c), exec (checkPress c) (exec (pad_feedback p) st))
  ∧ has_class padContainer "unclickable" (exec (playComputerTurn signals u) st) = true
  ∧ has_class padContainer "unclickable" (exec (resetGame msg) st) = true
  ∧ has_class padContainer "unclickable" (exec playHumanTurn st) = false.
Proof.
  intros Hc Hp. split; [apply padHandler_known_signal; assumption|].
  unfold has_class. repeat split.
  - apply bool_decide_eq_true_2.
    destruct (getRandomItem signals u) as [| |q] eqn:E.
    + unfold playComputerTurn, classList_add, setText, set_text_of. rewrite E.
      run_monad. apply elem_of_union_l, elem_of_singleton. reflexivity.
    + unfold playComputerTurn, classList_add, setText, set_text_of. rewrite E.
      run_monad. apply elem_of_union_l, elem_of_singleton. reflexivity.
    + unfold exec. rewrite (playComputerTurn_item signals u st q E). simpl.
      apply elem_of_union_l, elem_of_singleton. reflexivity.
  - apply bool_decide_eq_true_2. unfold exec. rewrite resetGame_spec. simpl.
    apply elem_of_union_l, elem_of_singleton. reflexivity.
  - apply bool_decide_eq_false_2. unfold playHumanTurn, classList_remove, exec.
    run_monad. rewrite elem_of_difference, elem_of_singleton.
    intros [_ H]. apply H. reflexivity.
Qed.

Lemma padHandler_forwards_in_every_phase_witness :
  padHandler pads (Some "red") (State ["red"] [] (JNum 8) 1 ∅ ∅ [] [] [])
  = (Return (Some "red"),
     exec (checkPress "red")
       (exec (pad_feedback (Pad "red" ".js-pad-red" "../assets/simon-says-sound-1.mp3"))
             (State ["red"] [] (JNum 8) 1 ∅ ∅ [] [] []))).
Proof.
  apply (padHandler_forwards_in_every_phase pads "red"
           (Pad "red" ".js-pad-red" "../assets/simon-says-sound-1.mp3") 0 "");
    [discriminate | reflexivity].
Defined.

(** C6, as the claim has it, fails: right after the start button, while the
    playback of round 1 is still pending and the pad container is
    unclickable, a call of [padHandler] with the colour of the sequence is
    checked like any other press, completes the round and changes
    [roundCount]. *)
Lemma press_during_computer_turn_not_ignored :
  has_class padContainer "unclickable" (step pads (ClickStart 0) (initial ∅ ∅)) = true
  ∧ timers (step pads (ClickStart 0) (initial ∅ ∅))
    = [(600, ActivatePad "red"); (1600, PlayHumanTurn)]
  ∧ game_vars (step pads (ClickStart 0) (initial ∅ ∅)) = ([], ["red"], 1, JNum 8)
  ∧ game_vars (step pads (ClickPad (Some "red")) (step pads (ClickStart 0) (initial ∅ ∅)))
    = ([], ["red"], 2, JNum 8)
  ∧ game_vars (step pads (ClickPad (Some "red")) (step pads (ClickStart 0) (initial ∅ ∅)))
    ≠ game_vars (step pads (ClickStart 0) (initial ∅ ∅)).
Proof.
  vm_compute. repeat split; discriminate.
Qed.

(** ** Replaying a completed round *)

Lemma checkPress_match_more c st :
  computerSequence st !! length (playerSequence st) = Some c →
  length (playerSequence st ++ [c]) ≠ length (computerSequence st) →
  checkPress c st = (Return tt, pressed c st).
Proof.
  intros Hmatch Hlen. rewrite checkPress_spec.
  rewrite bool_decide_eq_false_2 by (intros H; apply H; exact Hmatch).
  destruct (Z.eqb_spec (Z.of_nat (length (computerSequence st))
                        - Z.of_nat (length (playerSequence st ++ [c]))) 0) as [E|E];
    [exfalso; apply Hlen; lia | reflexivity].
Qed.

Lemma checkPress_match_last c st :
  computerSequence st !! length (playerSequence st) = Some c →
  length (playerSequence st ++ [c]) = length (computerSequence st) →
  maxRoundCount st ≠ JNum (Z.of_nat (length (computerSequence st))) →
  game_vars (exec (checkPress c) st)
  = ([], computerSequence st, roundCount st + 1, maxRoundCount st)
  ∧ classList (exec (checkPress c) st) = classList st.
Proof.
  intros Hmatch Hlen Hmax. unfold exec. rewrite checkPress_spec.
  rewrite bool_decide_eq_false_2 by (intros H; apply H; exact Hmatch).
  rewrite Hlen, Z.sub_diag. simpl.
  rewrite (checkRound_next (pressed c st)) by exact Hmax.
  split; reflexivity.
Qed.

Lemma press_all_cons signals c rest st :
  press_all signals (c :: rest) st
  = press_all signals rest (exec (padHandler signals (Some c)) st).
Proof. reflexivity. Qed.

(** Pressing, in order, what is left of the target sequence completes the
    round: the counter goes up by one and the pad container keeps its
    classes, so it stays clickable if it was. *)
Lemma press_all_completes_round (signals : list pad) (rest : list string) :
  ∀ st,
    computerSequence st = playerSequence st ++ rest →
    rest ≠ [] →
    Forall (fun c => c ≠ "" ∧ ∃ p, find_pad signals c = Some p) rest →
    maxRoundCount st ≠ JNum (Z.of_nat (length (computerSequence st))) →
    game_vars (press_all signals rest st)
    = ([], computerSequence st, roundCount st + 1, maxRoundCount st)
    ∧ has_class padContainer "unclickable" (press_all signals rest st)
      = has_class padContainer "unclickable" st.
Proof.
  induction rest as [|c rest IH]; intros st Hcs Hne Hpads Hmax; [congruence|].
  apply Forall_cons in Hpads as [(Hc & p & Hp) Hpads].
  rewrite press_all_cons.
  set (st0 := exec (pad_feedback p) st).
  assert (Hstep : exec (padHandler signals (Some c)) st = exec (checkPress c) st0).
  { unfold exec at 1. rewrite (padHandler_known_signal signals c p st Hc Hp). reflexivity. }
  rewrite Hstep.
  assert (Hcs0 : computerSequence st0 = computerSequence st) by reflexivity.
  assert (Hps0 : playerSequence st0 = playerSequence st) by reflexivity.
  assert (Hmatch : computerSequence st0 !! length (playerSequence st0) = Some c).
  { rewrite Hcs0, Hps0, Hcs. rewrite lookup_app_r by lia.
    rewrite Nat.sub_diag. reflexivity. }
  assert (Hcls0 : has_class padContainer "unclickable" st0
                  = has_class padContainer "unclickable" st).
  { unfold has_class, st0, pad_feedback, play, classList_add, setTimeout. run_monad.
    apply bool_decide_ext. rewrite elem_of_union, elem_of_singleton.
    split; [intros [E|H]; [|exact H] | intros H; right; exact H].
    injection E as _ E. discriminate E. }
  destruct rest as [|c' rest'].
  - destruct (checkPress_match_last c st0) as [Hvars Hcls].
    + exact Hmatch.
    + rewrite Hcs0, Hps0, Hcs, !length_app. reflexivity.
    + exact Hmax.
    + change (press_all signals [] (exec (checkPress c) st0))
        with (exec (checkPress c) st0).
      split; [exact Hvars|].
      unfold has_class in *. rewrite Hcls. exact Hcls0.
  - assert (Hmore : checkPress c st0 = (Return tt, pressed c st0)).
    { apply checkPress_match_more; [exact Hmatch|].
      rewrite Hcs0, Hps0, Hcs, !length_app. simpl. lia. }
    unfold exec. rewrite Hmore. cbn [snd].
    destruct (IH (pressed c st0)) as [Hvars Hcls].
    + simpl. rewrite Hcs, <- app_assoc. reflexivity.
    + discriminate.
    + exact Hpads.
    + exact Hmax.
    + split; [exact Hvars|]. rewrite Hcls. exact Hcls0.
Qed.

(** C5. The round counter does advance twice when a completed round is
    replayed before the next computer turn.  In general: from the player's
    turn of any round that is not the last, pressing the target sequence
    through completes the round ([roundCount + 1], pads still clickable,
    target sequence not yet extended), and pressing the same sequence
    through once more completes it again ([roundCount + 2]). *)
Theorem replayed_round_advances_twice (signals : list pad) (st : state) :
  playerSequence st = [] →
  computerSequence st ≠ [] →
  Forall (fun c => c ≠ "" ∧ ∃ p, find_pad signals c = Some p) (computerSequence st) →
  maxRoundCount st ≠ JNum (Z.of_nat (length (computerSequence st))) →
  has_class padContainer "unclickable" st = false →
  let once := press_all signals (computerSequence st) st in
  let twice := press_all signals (computerSequence st) once in
  game_vars once = ([], computerSequence st, roundCount st + 1, maxRoundCount st)
  ∧ has_class padContainer "unclickable" once = false
  ∧ game_vars twice = ([], computerSequence st, roundCount st + 2, maxRoundCount st).
Proof.
  intros Hps Hne Hpads Hmax Hclick. cbv zeta.
  destruct (press_all_completes_round signals (computerSequence st) st)
    as [Hvars1 Hcls1]; try assumption.
  { rewrite Hps. reflexivity. }
  unfold game_vars in Hvars1. injection Hvars1 as Hps1 Hcs1 Hrc1 Hmrc1.
  destruct (press_all_completes_round signals (computerSequence st)
              (press_all signals (computerSequence st) st)) as [Hvars2 _].
  { rewrite Hps1, Hcs1. reflexivity. }
  { exact Hne. }
  { exact Hpads. }
  { rewrite Hmrc1, Hcs1. exact Hmax. }
  split; [unfold game_vars; congruence|].
  split; [congruence|].
  rewrite Hvars2, Hcs1, Hrc1, Hmrc1. f_equal. f_equal. lia.
Qed.

Lemma replayed_round_advances_twice_witness :
  game_vars (press_all pads ["red"] (State ["red"] [] (JNum 8) 1 ∅ ∅ [] [] []))
  = ([], ["red"], 1 + 1, JNum 8)
  ∧ game_vars
      (press_all pads ["red"]
         (press_all pads ["red"] (State ["red"] [] (JNum 8) 1 ∅ ∅ [] [] [])))
    = ([], ["red"], 1 + 2, JNum 8).
Proof.
  pose proof (replayed_round_advances_twice pads
                (State ["red"] [] (JNum 8) 1 ∅ ∅ [] [] [])) as H.
  cbv zeta in H.
  destruct H as (Honce & _ & Htwice).
  - reflexivity.
  - discriminate.
  - constructor; [|constructor].
    split; [discriminate|].
    exists (Pad "red" ".js-pad-red" "../assets/simon-says-sound-1.mp3").
    reflexivity.
  - discriminate.
  - reflexivity.
  - split; [exact Honce | exact Htwice].
Defined.

(** The same on the running script: a game is started, the playback and
    the hand-over callbacks run, and the red pad is clicked twice before the
    next computer turn; the counter stands at 3 with one colour to repeat. *)
Example replay_after_start :
  game_vars
    (run pads [ClickStart 0; TimerFires 0 0; TimerFires 1 0; TimerFires 0 0;
               ClickPad (Some "red")] (initial ∅ ∅))
  = ([], ["red"], 2, JNum 8)
  ∧ game_vars
      (run pads [ClickStart 0; TimerFires 0 0; TimerFires 1 0; TimerFires 0 0;
                 ClickPad (Some "red"); ClickPad (Some "red")] (initial ∅ ∅))
    = ([], ["red"], 3, JNum 8).
Proof. split; vm_compute; reflexivity. Qed.

(** * Further properties of the script *)

(** ** The random pick *)

(** X1. On a non-empty collection [getRandomItem] never returns [null] or
    [undefined]: whatever [Math.random()] gives in [0, 1), the result is the
    element at some index below the length. *)
Theorem getRandomItem_picks_member {A} (l : list A) (u : Q) :
  l ≠ [] → (0 <= u)%Q → (u < 1)%Q →
  ∃ i a, (i < length l)%nat ∧ l !! i = Some a ∧ getRandomItem l u = Item a.
Proof.
  intros Hne H0 H1. unfold getRandomItem.
  rewrite bool_decide_eq_false_2 by (destruct l; [congruence | discriminate]).
  assert (Hlen : 0 < Z.of_nat (length l)) by (destruct l; [congruence | simpl; lia]).
  pose proof (Qfloor_scaled_range u (Z.of_nat (length l)) H0 H1 Hlen) as [Hlo Hhi].
  set (k := Qfloor (u * inject_Z (Z.of_nat (length l)))) in *.
  assert (Hk : (Z.to_nat k < length l)%nat) by lia.
  destruct (lookup_lt_is_Some_2 l (Z.to_nat k) Hk) as [a Ha].
  exists (Z.to_nat k), a. split; [exact Hk|]. split; [exact Ha|].
  unfold js_index. destruct (Z.ltb_spec k 0) as [?|_]; [lia|].
  rewrite Ha. reflexivity.
Qed.

Lemma getRandomItem_picks_member_witness :
  ∃ i a, (i < length pads)%nat ∧ pads !! i = Some a
         ∧ getRandomItem pads (3 # 4) = Item a.
Proof.
  apply (getRandomItem_picks_member pads (3 # 4)); [discriminate | discriminate | reflexivity].
Defined.




(** ** Levels *)

(** X3. A number outside 1..4 is rejected, whatever its size or sign: the
    call returns the message and the state, [maxRoundCount] of an earlier
    game included, is exactly what it was. *)
Theorem setLevel_number_out_of_range (n : Z) (st : state) :
  n < 1 ∨ 4 < n →
  setLevel (LNum n) st = (Return (JStr level_message), st)
  ∧ maxRoundCount (exec (setLevel (LNum n)) st) = maxRoundCount st.
Proof.
  intros Hn.
  assert (E : setLevel (LNum n) st = (Return (JStr level_message), st))
    by (apply setLevel_other_number; lia).
  split; [exact E|]. unfold exec. rewrite E. reflexivity.
Qed.

Lemma setLevel_number_out_of_range_witness :
  setLevel (LNum 0) (State ["red"] [] (JNum 8) 1 ∅ ∅ [] [] [])
  = (Return (JStr level_message), State ["red"] [] (JNum 8) 1 ∅ ∅ [] [] [])
  ∧ maxRoundCount (exec (setLevel (LNum 0)) (State ["red"] [] (JNum 8) 1 ∅ ∅ [] [] []))
    = maxRoundCount (State ["red"] [] (JNum 8) 1 ∅ ∅ [] [] []).
Proof.
  apply (setLevel_number_out_of_range 0). left. reflexivity.
Defined.

(** X4. A level given as a string is looked up by that string: "1".."4"
    select 8, 14, 20, 31 like the numbers do, and any string that is neither
    one of these four nor the name of a member of [Object.prototype] is
    rejected with the message, the state unchanged. *)
Theorem setLevel_string_level (s : string) (st : state) :
  s ∉ ["1"; "2"; "3"; "4"] → s ∉ object_prototype →
  setLevel (LStr s) st = (Return (JStr level_message), st)
  ∧ setLevel (LStr "1") st = setLevel (LNum 1) st
  ∧ setLevel (LStr "2") st = setLevel (LNum 2) st
  ∧ setLevel (LStr "3") st = setLevel (LNum 3) st
  ∧ setLevel (LStr "4") st = setLevel (LNum 4) st.
Proof.
  intros Hown Hproto. split; [|repeat split; reflexivity].
  unfold setLevel, get_property, levelMap. cbn [property_key].
  rewrite !lookup_insert_ne, lookup_empty.
  - rewrite bool_decide_eq_false_2 by exact Hproto. reflexivity.
  - intros <-. apply Hown. set_solver.
  - intros <-. apply Hown. set_solver.
  - intros <-. apply Hown. set_solver.
  - intros <-. apply Hown. set_solver.
Qed.

Lemma setLevel_string_level_witness :
  setLevel (LStr "hard") (State [] [] (JNum 0) 0 ∅ ∅ [] [] [])
  = (Return (JStr level_message), State [] [] (JNum 0) 0 ∅ ∅ [] [] []).
Proof.
  apply (setLevel_string_level "hard").
  - intros Hin. repeat (apply elem_of_cons in Hin as [Hin | Hin]; [discriminate Hin|]).
    apply elem_of_nil in Hin. exact Hin.
  - intros Hin. unfold object_prototype in Hin.
    repeat (apply elem_of_cons in Hin as [Hin | Hin]; [discriminate Hin|]).
    apply elem_of_nil in Hin. exact Hin.
Defined.

(** ** Playback *)

Lemma playback_from_imap (sequence : list string) :
  ∀ index,
    playback_from index sequence
    = imap (fun i c => ((index + Z.of_nat i + 1) * 600, ActivatePad c)) sequence.
Proof.
  induction sequence as [|c rest IH]; intros index; [reflexivity|].
  simpl. rewrite Z.add_0_r. f_equal. rewrite IH.
  apply imap_ext. intros i x _. simpl. do 2 f_equal. lia.
Qed.

(** X5. [activatePads] only schedules: for the colour at index [i] of the
    sequence it hands one [activatePad] callback to [setTimeout] with delay
    [(i + 1) * 600], in the order of the sequence and after the callbacks
    already pending; no sound is played yet, no class or text changes, and the
    game variables are untouched. *)
Theorem activatePads_schedule (sequence : list string) (st : state) :
  activatePads sequence st
  = (Return tt,
     set_timers
       (timers st
        ++ imap (fun i c => ((Z.of_nat i + 1) * 600, ActivatePad c)) sequence) st).
Proof.
  unfold activatePads. rewrite activatePads_from_timers, playback_from_imap.
  reflexivity.
Qed.

(** X6. [activatePad] with a colour that no pad has does nothing.  With the
    colour of a pad it lights that pad (class "activated"), plays its sound
    once and schedules the removal of the highlight after 500 ms; once that
    callback has run the pad is no longer highlighted and the pending
    callbacks are those from before.  The game variables are never touched. *)
Theorem activatePad_highlight_is_removed (signals : list pad) (c : string) (u : Q) (st : state) :
  match find_pad signals c with
  | None => activatePad signals c st = (Return tt, st)
  | Some p =>
      let lit := exec (activatePad signals c) st in
      let done := exec (fire signals (length (timers st)) u) lit in
      result (activatePad signals c) st = Return tt
      ∧ color p = c
      ∧ has_class (selector p) "activated" lit = true
      ∧ played lit = played st ++ [sound p]
      ∧ timers lit = timers st ++ [(500, RemoveActivated (selector p))]
      ∧ game_vars lit = game_vars st
      ∧ has_class (selector p) "activated" done = false
      ∧ timers done = timers st
      ∧ played done = played lit
      ∧ game_vars done = game_vars st
  end.
Proof.
  destruct (find_pad signals c) as [p|] eqn:Hp.
  - assert (Hc : color p = c).
    { unfold find_pad in Hp. apply List.find_some in Hp as [_ Heq].
      apply String.eqb_eq. exact Heq. }
    assert (Hlit : activatePad signals c st
                   = (Return tt,
                      set_timers (timers st ++ [(500, RemoveActivated (selector p))])
                        (State (computerSequence st) (playerSequence st)
                               (maxRoundCount st) (roundCount st)
                               ({[ (selector p, "activated") ]} ∪ classList st)
                               (textContent st) (played st ++ [sound p])
                               (alerts st) (timers st)))).
    { unfold activatePad. rewrite Hp. reflexivity. }
    cbv zeta. unfold exec, result. rewrite Hlit. cbn [fst snd].
    pose proof (fire_last signals u
                  (State (computerSequence st) (playerSequence st)
                         (maxRoundCount st) (roundCount st)
                         ({[ (selector p, "activated") ]} ∪ classList st)
                         (textContent st) (played st ++ [sound p])
                         (alerts st) (timers st))
                  500 (RemoveActivated (selector p))) as Hfire.
    cbn [timers] in Hfire. rewrite Hfire.
    unfold has_class. simpl.
    repeat split; try reflexivity; try exact Hc.
    + apply bool_decide_eq_true_2, elem_of_union_l, elem_of_singleton. reflexivity.
    + apply bool_decide_eq_false_2. rewrite elem_of_difference, elem_of_singleton.
      intros [_ H]. apply H. reflexivity.
  - unfold activatePad. rewrite Hp. reflexivity.
Qed.

(** ** The hand-over to the player *)

Lemma reachable_within_target signals st :
  reachable signals st → player_within_target st.
Proof.
  induction 1 as [cls txt | ev st Hreach IH].
  - unfold player_within_target. simpl. lia.
  - apply step_invariant, IH.
Qed.

(** X7. [playHumanTurn] makes the pads clickable and shows how many presses
    the round still wants; in every reachable state that number is a natural
    number, the length the player's input is short of the target sequence.
    It changes no game variable and schedules nothing. *)
Theorem playHumanTurn_presses_left (signals : list pad) (st : state) :
  reachable signals st →
  let st' := exec playHumanTurn st in
  has_class padContainer "unclickable" st' = false
  ∧ game_vars st' = game_vars st
  ∧ timers st' = timers st
  ∧ ∃ n : nat,
      textContent st' !! statusSpan = Some (PressesLeft (Z.of_nat n))
      ∧ (length (playerSequence st) + n)%nat = length (computerSequence st).
Proof.
  intros Hreach. apply reachable_within_target in Hreach.
  unfold player_within_target in Hreach. cbv zeta.
  unfold playHumanTurn, classList_remove, setText, set_text_of, has_class.
  run_monad. repeat split.
  - apply bool_decide_eq_false_2. rewrite elem_of_difference, elem_of_singleton.
    intros [_ H]. apply H. reflexivity.
  - exists (length (computerSequence st) - length (playerSequence st))%nat.
    split; [|lia]. rewrite lookup_insert_eq. do 2 f_equal. lia.
Qed.

Lemma playHumanTurn_presses_left_witness :
  has_class padContainer "unclickable"
    (exec playHumanTurn (run pads [ClickStart 0] (initial ∅ ∅))) = false.
Proof.
  apply (playHumanTurn_presses_left pads (run pads [ClickStart 0] (initial ∅ ∅))).
  apply run_reachable, reachable_initial.
Defined.

(** X8. In a computer turn of regular play (the target sequence shorter
    than [roundCount] when the turn begins) the hand-over to the player is
    scheduled after the whole playback: every playback step, plus the 500 ms
    its highlight lasts, comes before the delay of [playHumanTurn]. *)
Theorem handover_after_playback (signals : list pad) (u : Q) (st : state) :
  signals ≠ [] → (0 <= u)%Q → (u < 1)%Q →
  Z.of_nat (length (computerSequence st)) < roundCount st →
  ∃ steps handover,
    timers (exec (playComputerTurn signals u) st)
    = timers st ++ steps ++ [(handover, PlayHumanTurn)]
    ∧ length steps = length (computerSequence (exec (playComputerTurn signals u) st))
    ∧ Forall (fun step => fst step + 500 < handover) steps.
Proof.
  intros Hne H0 H1 Hlen.
  destruct (getRandomItem_nonempty signals u Hne H0 H1) as (p & Hitem & _).
  unfold exec. rewrite (playComputerTurn_item signals u st p Hitem). cbn [snd timers computerSequence].
  exists (playback_from 0 (computerSequence st ++ [color p])), (roundCount st * 600 + 1000).
  split; [reflexivity|].
  rewrite playback_from_imap. split; [apply length_imap|].
  apply Forall_forall. intros [d t] Hin.
  apply elem_of_lookup_imap in Hin as (i & c & E & Hi).
  injection E as -> _. apply lookup_lt_Some in Hi.
  rewrite length_app in Hi. simpl in Hi. simpl. lia.
Qed.

Lemma handover_after_playback_witness :
  ∃ steps handover,
    timers (exec (playComputerTurn pads 0) (State ["red"] [] (JNum 8) 2 ∅ ∅ [] [] []))
    = timers (State ["red"] [] (JNum 8) 2 ∅ ∅ [] [] []) ++ steps ++ [(handover, PlayHumanTurn)]
    ∧ length steps
      = length (computerSequence
                  (exec (playComputerTurn pads 0) (State ["red"] [] (JNum 8) 2 ∅ ∅ [] [] [])))
    ∧ Forall (fun step => fst step + 500 < handover) steps.
Proof.
  apply (handover_after_playback pads 0 (State ["red"] [] (JNum 8) 2 ∅ ∅ [] [] []));
    [discriminate | discriminate | reflexivity | reflexivity].
Defined.

(** ** Starting a game *)

(** X9. Whatever state an earlier game left behind, the start button
    begins a fresh round 1 of 8: the target sequence is one pad colour, the
    player's input is empty, the start button is hidden, the status line
    shown, the pads unclickable, and the playback of the one colour and the
    hand-over to the player are scheduled behind the callbacks that were
    already pending. *)
Theorem startButtonHandler_fresh_game (signals : list pad) (u : Q) (st : state) :
  signals ≠ [] → (0 <= u)%Q → (u < 1)%Q →
  ∃ p, p ∈ signals
    ∧ startButtonHandler signals u st
      = (Return tt,
         State [color p] [] (JNum 8) 1
               ({[ (padContainer, "unclickable") ]}
                  ∪ ({[ (startButton, "hidden") ]} ∪ classList st)
                      ∖ {[ (statusSpan, "hidden") ]})
               (<[heading := RoundOf 1 (JNum 8)]>
                  (<[statusSpan := Lit "The computer's turn..."]> (textContent st)))
               (played st) (alerts st)
               (timers st ++ [(600, ActivatePad (color p)); (1600, PlayHumanTurn)])).
Proof.
  intros Hne H0 H1.
  destruct (getRandomItem_nonempty signals u Hne H0 H1) as (p & Hitem & Hin).
  exists p. split; [exact Hin|].
  rewrite startButtonHandler_spec, (playComputerTurn_item _ _ _ p Hitem).
  reflexivity.
Qed.

Lemma startButtonHandler_fresh_game_witness :
  ∃ p, p ∈ pads
    ∧ startButtonHandler pads 0 (State ["blue"; "red"] ["blue"] (JNum 8) 2 ∅ ∅ [] [] [])
      = (Return tt,
         State [color p] [] (JNum 8) 1
               ({[ (padContainer, "unclickable") ]}
                  ∪ ({[ (startButton, "hidden") ]}
                       ∪ classList (State ["blue"; "red"] ["blue"] (JNum 8) 2 ∅ ∅ [] [] []))
                      ∖ {[ (statusSpan, "hidden") ]})
               (<[heading := RoundOf 1 (JNum 8)]>
                  (<[statusSpan := Lit "The computer's turn..."]>
                     (textContent (State ["blue"; "red"] ["blue"] (JNum 8) 2 ∅ ∅ [] [] []))))
               (played (State ["blue"; "red"] ["blue"] (JNum 8) 2 ∅ ∅ [] [] []))
               (alerts (State ["blue"; "red"] ["blue"] (JNum 8) 2 ∅ ∅ [] [] []))
               (timers (State ["blue"; "red"] ["blue"] (JNum 8) 2 ∅ ∅ [] [] [])
                  ++ [(600, ActivatePad (color p)); (1600, PlayHumanTurn)])).
Proof.
  apply (startButtonHandler_fresh_game pads 0
           (State ["blue"; "red"] ["blue"] (JNum 8) 2 ∅ ∅ [] [] []));
    [discriminate | discriminate | reflexivity].
Defined.

(** ** Pending callbacks are never cancelled *)

Lemma keeps_timers_bind {A B} (m : M A) (k : A → M B) :
  keeps_timers m → (∀ a, keeps_timers (k a)) → keeps_timers (m ≫= k).
Proof.
  intros Hm Hk st. specialize (Hm st). unfold exec in *.
  unfold mbind, M_bind. destruct (m st) as [[a|err] st1]; simpl in *.
  - etrans; [exact Hm | apply Hk].
  - exact Hm.
Qed.

Lemma keeps_timers_ret {A} (a : A) : keeps_timers (mret a).
Proof. intros st. reflexivity. Qed.

Lemma keeps_timers_throw {A} err : keeps_timers (@throw A err).
Proof. intros st. reflexivity. Qed.

Lemma keeps_timers_gets {A} (f : state → A) : keeps_timers (gets f).
Proof. intros st. reflexivity. Qed.

Lemma keeps_timers_modify (f : state → state) :
  (∀ st, timers st `prefix_of` timers (f st)) → keeps_timers (modify f).
Proof. intros Hf st. apply Hf. Qed.

Lemma keeps_timers_setTimeout t d : keeps_timers (setTimeout t d).
Proof. intros st. apply prefix_app_r. reflexivity. Qed.

Lemma keeps_timers_classList_add el c : keeps_timers (classList_add el c).
Proof. intros st. reflexivity. Qed.

Lemma keeps_timers_classList_remove el c : keeps_timers (classList_remove el c).
Proof. intros st. reflexivity. Qed.

Lemma keeps_timers_play src : keeps_timers (play src).
Proof. intros st. reflexivity. Qed.

Lemma keeps_timers_alert msg : keeps_timers (alert msg).
Proof. intros st. reflexivity. Qed.

Lemma keeps_timers_setText element t : keeps_timers (setText element t).
Proof. intros st. destruct element as [el|[|el els]]; reflexivity. Qed.

Lemma keeps_timers_setLevel l : keeps_timers (setLevel l).
Proof.
  intros st. unfold setLevel, exec. destruct (negb (truthy _)); reflexivity.
Qed.

Ltac keeps_timers_step :=
  first
    [ apply keeps_timers_ret
    | apply keeps_timers_throw
    | apply keeps_timers_gets
    | apply keeps_timers_setTimeout
    | apply keeps_timers_classList_add
    | apply keeps_timers_classList_remove
    | apply keeps_timers_play
    | apply keeps_timers_alert
    | apply keeps_timers_setText
    | apply keeps_timers_setLevel
    | apply keeps_timers_modify; intros ?; reflexivity
    | apply keeps_timers_bind; [|intros ?] ].

Lemma keeps_timers_activatePad signals c : keeps_timers (activatePad signals c).
Proof. unfold activatePad. destruct (find_pad signals c); repeat keeps_timers_step. Qed.

Lemma keeps_timers_activatePads sequence : keeps_timers (activatePads sequence).
Proof.
  intros st. unfold activatePads, exec. rewrite activatePads_from_timers.
  apply prefix_app_r. reflexivity.
Qed.

Lemma keeps_timers_playComputerTurn signals u : keeps_timers (playComputerTurn signals u).
Proof.
  unfold playComputerTurn.
  destruct (getRandomItem signals u); repeat keeps_timers_step.
  apply keeps_timers_activatePads.
Qed.

Lemma keeps_timers_playHumanTurn : keeps_timers playHumanTurn.
Proof. unfold playHumanTurn. repeat keeps_timers_step. Qed.

Lemma keeps_timers_resetGame msg : keeps_timers (resetGame msg).
Proof. unfold resetGame. repeat keeps_timers_step. Qed.

Lemma keeps_timers_checkRound : keeps_timers checkRound.
Proof.
  unfold checkRound.
  do 2 (apply keeps_timers_bind; [keeps_timers_step | intros ?]).
  case_bool_decide; [apply keeps_timers_resetGame | repeat keeps_timers_step].
Qed.

Lemma keeps_timers_checkPress c : keeps_timers (checkPress c).
Proof.
  unfold checkPress.
  do 4 (apply keeps_timers_bind; [keeps_timers_step | intros ?]).
  case_bool_decide; [apply keeps_timers_resetGame|].
  destruct (Z.eqb _ _); [apply keeps_timers_checkRound | keeps_timers_step].
Qed.

Lemma keeps_timers_padHandler signals d : keeps_timers (padHandler signals d).
Proof.
  unfold padHandler. destruct d as [c|]; [|keeps_timers_step].
  destruct (String.eqb c ""); [keeps_timers_step|].
  destruct (find_pad signals c); [|keeps_timers_step].
  do 3 (apply keeps_timers_bind; [keeps_timers_step | intros ?]).
  apply keeps_timers_bind; [apply keeps_timers_checkPress | intros ?].
  keeps_timers_step.
Qed.

Lemma keeps_timers_startButtonHandler signals u :
  keeps_timers (startButtonHandler signals u).
Proof.
  unfold startButtonHandler.
  do 6 (apply keeps_timers_bind; [keeps_timers_step | intros ?]).
  apply keeps_timers_playComputerTurn.
Qed.

Lemma keeps_timers_run_task signals u t : keeps_timers (run_task signals u t).
Proof.
  destruct t; simpl.
  - keeps_timers_step.
  - apply keeps_timers_activatePad.
  - apply keeps_timers_playHumanTurn.
  - apply keeps_timers_playComputerTurn.
Qed.

(** X10. No function of the script cancels a callback it has handed to
    [setTimeout]: after a click or a call, every callback that was pending
    is still pending, in the same order, before the new ones; when a callback
    comes due, only that one leaves the queue.  A reset or a restart in
    particular leaves the playback and hand-over callbacks of the abandoned
    game in place. *)
Theorem pending_callbacks_are_kept (signals : list pad) (ev : event) (st : state) :
  match ev with
  | TimerFires i _ => delete i (timers st)
  | _ => timers st
  end `prefix_of` timers (step signals ev st).
Proof.
  destruct ev; cbn [step].
  - apply keeps_timers_startButtonHandler.
  - apply keeps_timers_padHandler.
  - unfold fire, exec. run_monad.
    destruct (timers st !! i) as [[d t]|] eqn:E.
    + run_monad.
      pose proof (keeps_timers_run_task signals u t
                    (set_timers (take i (timers st) ++ drop (S i) (timers st)) st)) as H.
      unfold exec in H. rewrite delete_take_drop.
      destruct (run_task signals u t _) as [[[]|err] s']; exact H.
    + apply lookup_ge_None in E. rewrite delete_take_drop.
      rewrite take_ge, drop_ge by lia. rewrite app_nil_r. reflexivity.
  - apply keeps_timers_setLevel.
  - apply keeps_timers_setText.
  - apply keeps_timers_activatePad.
  - apply keeps_timers_activatePads.
  - apply keeps_timers_playComputerTurn.
  - apply keeps_timers_playHumanTurn.
  - apply keeps_timers_checkPress.
  - apply keeps_timers_checkRound.
  - apply keeps_timers_resetGame.
Qed.

(** ** Playing a round *)

Lemma press_all_app signals pre post st :
  press_all signals (pre ++ post) st = press_all signals post (press_all signals pre st).
Proof.
  revert st. induction pre as [|c pre IH]; intros st; [reflexivity|].
  rewrite <- app_comm_cons, !press_all_cons. apply IH.
Qed.

Lemma press_known_signal signals c p st :
  c ≠ "" → find_pad signals c = Some p →
  exec (padHandler signals (Some c)) st = exec (checkPress c) (exec (pad_feedback p) st).
Proof.
  intros Hc Hp. unfold exec at 1.
  rewrite (padHandler_known_signal signals c p st Hc Hp). reflexivity.
Qed.

Lemma press_all_correct_prefix (signals : list pad) (pre : list string) :
  ∀ st rest,
    computerSequence st = playerSequence st ++ pre ++ rest →
    rest ≠ [] →
    Forall (fun c => c ≠ "" ∧ ∃ p, find_pad signals c = Some p) pre →
    playerSequence (press_all signals pre st) = playerSequence st ++ pre
    ∧ computerSequence (press_all signals pre st) = computerSequence st
    ∧ roundCount (press_all signals pre st) = roundCount st
    ∧ maxRoundCount (press_all signals pre st) = maxRoundCount st
    ∧ alerts (press_all signals pre st) = alerts st.
Proof.
  induction pre as [|c pre IH]; intros st rest Hcs Hne Hpads.
  - rewrite app_nil_r. repeat split; reflexivity.
  - apply Forall_cons in Hpads as [(Hc & p & Hp) Hpads].
    rewrite press_all_cons, (press_known_signal signals c p st Hc Hp).
    set (st0 := exec (pad_feedback p) st).
    assert (Hmore : checkPress c st0 = (Return tt, pressed c st0)).
    { apply checkPress_match_more.
      - change (computerSequence st0) with (computerSequence st).
        change (playerSequence st0) with (playerSequence st).
        rewrite Hcs, lookup_app_r by lia. rewrite Nat.sub_diag. reflexivity.
      - change (computerSequence st0) with (computerSequence st).
        change (playerSequence st0) with (playerSequence st).
        rewrite Hcs, !length_app.
        destruct rest; [congruence|]. simpl. lia. }
    unfold exec. rewrite Hmore. cbn [snd].
    destruct (IH (pressed c st0) rest) as (Hps & Hcs' & Hrc & Hmrc & Hal).
    + simpl. rewrite Hcs, <- app_assoc. reflexivity.
    + exact Hne.
    + exact Hpads.
    + rewrite Hps, Hcs', Hrc, Hmrc, Hal. simpl.
      rewrite <- app_assoc. repeat split; reflexivity.
Qed.

(** X11. While the player repeats the target sequence correctly and has
    not reached its end, nothing but the input grows: after any proper
    prefix of the outstanding colours [playerSequence] holds exactly the
    colours pressed so far, the target sequence, [roundCount] and
    [maxRoundCount] are unchanged and no alert has been shown. *)
Theorem correct_presses_accumulate
    (signals : list pad) (pre rest : list string) (st : state) :
  computerSequence st = playerSequence st ++ pre ++ rest →
  rest ≠ [] →
  Forall (fun c => c ≠ "" ∧ ∃ p, find_pad signals c = Some p) pre →
  playerSequence (press_all signals pre st) = playerSequence st ++ pre
  ∧ computerSequence (press_all signals pre st) = computerSequence st
  ∧ roundCount (press_all signals pre st) = roundCount st
  ∧ maxRoundCount (press_all signals pre st) = maxRoundCount st
  ∧ alerts (press_all signals pre st) = alerts st.
Proof. apply press_all_correct_prefix. Qed.

Lemma correct_presses_accumulate_witness :
  playerSequence
    (press_all pads ["red"; "blue"]
       (State ["red"; "blue"; "red"] [] (JNum 8) 3 ∅ ∅ [] [] []))
  = playerSequence (State ["red"; "blue"; "red"] [] (JNum 8) 3 ∅ ∅ [] [] [])
    ++ ["red"; "blue"].
Proof.
  pose proof (correct_presses_accumulate pads ["red"; "blue"] ["red"]
                (State ["red"; "blue"; "red"] [] (JNum 8) 3 ∅ ∅ [] [] [])) as H.
  destruct H as (Hps & _).
  - reflexivity.
  - discriminate.
  - repeat constructor; try discriminate.
    + exists (Pad "red" ".js-pad-red" "../assets/simon-says-sound-1.mp3"). reflexivity.
    + exists (Pad "blue" ".js-pad-blue" "../assets/simon-says-sound-3.mp3"). reflexivity.
  - exact Hps.
Defined.

(** X12. The first wrong pad loses the game wherever it comes in the
    round: after any number of correct presses, pressing a pad other than
    the next colour of the target sequence resets the game variables to
    their initial values and shows the loss message, once. *)
Theorem wrong_press_loses_anywhere
    (signals : list pad) (pre rest : list string) (next wrong : string) (st : state) :
  computerSequence st = playerSequence st ++ pre ++ next :: rest →
  Forall (fun c => c ≠ "" ∧ ∃ p, find_pad signals c = Some p) (pre ++ [wrong]) →
  wrong ≠ next →
  game_vars (press_all signals (pre ++ [wrong]) st) = ([], [], 0, JNum 0)
  ∧ alerts (press_all signals (pre ++ [wrong]) st)
    = alerts st ++ ["Wrong pad! Game over."].
Proof.
  intros Hcs Hpads Hwrong.
  apply Forall_app in Hpads as [Hpre Hw].
  apply Forall_cons in Hw as [(Hc & p & Hp) _].
  destruct (press_all_correct_prefix signals pre st (next :: rest) Hcs)
    as (Hps & Hcs' & _ & _ & Hal); [discriminate | exact Hpre |].
  rewrite press_all_app.
  set (st1 := press_all signals pre st) in *.
  change (press_all signals [wrong] st1) with (exec (padHandler signals (Some wrong)) st1).
  rewrite (press_known_signal signals wrong p st1 Hc Hp).
  unfold exec at 1 3. rewrite checkPress_spec.
  change (computerSequence (exec (pad_feedback p) st1)) with (computerSequence st1).
  change (playerSequence (exec (pad_feedback p) st1)) with (playerSequence st1).
  rewrite bool_decide_eq_true_2.
  - rewrite resetGame_spec. cbn [snd]. unfold game_vars. cbn.
    split; [reflexivity|]. rewrite <- Hal. reflexivity.
  - rewrite Hcs', Hps, Hcs, app_assoc.
    rewrite lookup_app_r by lia. rewrite Nat.sub_diag. simpl. congruence.
Qed.

Lemma wrong_press_loses_anywhere_witness :
  game_vars
    (press_all pads (["red"] ++ ["green"])
       (State ["red"; "blue"; "red"] [] (JNum 8) 3 ∅ ∅ [] [] []))
  = ([], [], 0, JNum 0)
  ∧ alerts
      (press_all pads (["red"] ++ ["green"])
         (State ["red"; "blue"; "red"] [] (JNum 8) 3 ∅ ∅ [] [] []))
    = alerts (State ["red"; "blue"; "red"] [] (JNum 8) 3 ∅ ∅ [] [] [])
      ++ ["Wrong pad! Game over."].
Proof.
  apply (wrong_press_loses_anywhere pads ["red"] ["red"] "blue" "green"
           (State ["red"; "blue"; "red"] [] (JNum 8) 3 ∅ ∅ [] [] [])).
  - reflexivity.
  - repeat constructor; try discriminate.
    + exists (Pad "red" ".js-pad-red" "../assets/simon-says-sound-1.mp3"). reflexivity.
    + exists (Pad "green" ".js-pad-green" "../assets/simon-says-sound-2.mp3"). reflexivity.
  - discriminate.
Defined.

(** X13. Completing the last round wins: when the target sequence has
    [maxRoundCount] entries and the player presses what is left of it
    without a mistake, the win message is shown, once, and the game variables
    are back at their initial values. *)
Theorem last_round_completed_wins (signals : list pad) (rest : list string) (st : state) :
  computerSequence st = playerSequence st ++ rest →
  rest ≠ [] →
  Forall (fun c => c ≠ "" ∧ ∃ p, find_pad signals c = Some p) rest →
  maxRoundCount st = JNum (Z.of_nat (length (computerSequence st))) →
  game_vars (press_all signals rest st) = ([], [], 0, JNum 0)
  ∧ alerts (press_all signals rest st) = alerts st ++ ["You win! Great memory!"].
Proof.
  intros Hcs Hne Hpads Hmax.
  destruct (exists_last Hne) as (pre & c & ->).
  apply Forall_app in Hpads as [Hpre Hlast].
  apply Forall_cons in Hlast as [(Hc & p & Hp) _].
  destruct (press_all_correct_prefix signals pre st [c] Hcs)
    as (Hps & Hcs' & _ & Hmrc & Hal); [discriminate | exact Hpre |].
  rewrite press_all_app.
  set (st1 := press_all signals pre st) in *.
  change (press_all signals [c] st1) with (exec (padHandler signals (Some c)) st1).
  rewrite (press_known_signal signals c p st1 Hc Hp).
  set (st2 := exec (pad_feedback p) st1).
  assert (Hcs2 : computerSequence st2 = computerSequence st) by exact Hcs'.
  assert (Hps2 : playerSequence st2 = playerSequence st ++ pre) by exact Hps.
  unfold exec at 1 2. rewrite checkPress_spec.
  rewrite bool_decide_eq_false_2.
  - replace (length (playerSequence st2 ++ [c])) with (length (computerSequence st2))
      by (rewrite Hcs2, Hps2, Hcs, !length_app; simpl; lia).
    rewrite Z.sub_diag. simpl Z.eqb. cbv iota.
    rewrite checkRound_win
      by (change (maxRoundCount st1 = JNum (Z.of_nat (length (computerSequence st1))));
          rewrite Hmrc, Hcs'; exact Hmax).
    rewrite resetGame_spec. cbn [snd]. unfold game_vars. cbn.
    split; [reflexivity|]. rewrite <- Hal. reflexivity.
  - intros H. apply H. rewrite Hcs2, Hps2, Hcs, app_assoc.
    rewrite lookup_app_r by lia. rewrite Nat.sub_diag. reflexivity.
Qed.

Lemma last_round_completed_wins_witness :
  game_vars
    (press_all pads ["blue"] (State ["red"; "blue"] ["red"] (JNum 2) 2 ∅ ∅ [] [] []))
  = ([], [], 0, JNum 0)
  ∧ alerts
      (press_all pads ["blue"] (State ["red"; "blue"] ["red"] (JNum 2) 2 ∅ ∅ [] [] []))
    = alerts (State ["red"; "blue"] ["red"] (JNum 2) 2 ∅ ∅ [] [] [])
      ++ ["You win! Great memory!"].
Proof.
  apply (last_round_completed_wins pads ["blue"]
           (State ["red"; "blue"] ["red"] (JNum 2) 2 ∅ ∅ [] [] [])).
  - reflexivity.
  - discriminate.
  - repeat constructor; try discriminate.
    exists (Pad "blue" ".js-pad-blue" "../assets/simon-says-sound-3.mp3"). reflexivity.
  - reflexivity.
Defined.

(** ** What every reachable state looks like *)

Lemma getRandomItem_item_elem {A} (l : list A) (u : Q) (a : A) :
  getRandomItem l u = Item a → a ∈ l.
Proof.
  unfold getRandomItem, js_index. case_bool_decide; [discriminate|].
  destruct (Z.ltb _ 0); [discriminate|].
  destruct (l !! _) as [b|] eqn:E; [|discriminate].
  intros [= <-]. eapply list_elem_of_lookup_2. exact E.
Qed.

Lemma well_formed_same signals st st' :
  playerSequence st' = playerSequence st →
  computerSequence st' = computerSequence st →
  well_formed signals st → well_formed signals st'.
Proof. unfold well_formed. intros -> ->. tauto. Qed.

Lemma well_formed_reset signals cs mrc rc cls txt pl al tm :
  Forall (fun c => ∃ p, p ∈ signals ∧ color p = c) cs →
  well_formed signals (State cs [] mrc rc cls txt pl al tm).
Proof. intros H. split; [apply prefix_nil | exact H]. Qed.

Lemma playComputerTurn_well_formed signals u st :
  well_formed signals st → well_formed signals (exec (playComputerTurn signals u) st).
Proof.
  intros [Hpre Hcol].
  destruct (getRandomItem signals u) as [| |p] eqn:E.
  - destruct (playComputerTurn_no_item signals u st) as (_ & Hvars & _);
      [rewrite E; discriminate|].
    unfold game_vars in Hvars. injection Hvars as Hps Hcs _ _.
    apply (well_formed_same signals st); [exact Hps | exact Hcs | split; assumption].
  - destruct (playComputerTurn_no_item signals u st) as (_ & Hvars & _);
      [rewrite E; discriminate|].
    unfold game_vars in Hvars. injection Hvars as Hps Hcs _ _.
    apply (well_formed_same signals st); [exact Hps | exact Hcs | split; assumption].
  - unfold exec. rewrite (playComputerTurn_item signals u st p E). split; simpl.
    + apply prefix_app_r. exact Hpre.
    + apply Forall_app. split; [exact Hcol|].
      constructor; [|constructor]. exists p. split; [|reflexivity].
      eapply getRandomItem_item_elem. exact E.
Qed.

Lemma resetGame_well_formed signals msg st :
  well_formed signals (exec (resetGame msg) st).
Proof. unfold exec. rewrite resetGame_spec. apply well_formed_reset. constructor. Qed.

Lemma checkRound_well_formed signals st :
  well_formed signals st → well_formed signals (exec checkRound st).
Proof.
  intros [_ Hcol]. unfold exec.
  destruct (decide (maxRoundCount st = JNum (Z.of_nat (length (computerSequence st)))))
    as [Hmax|Hmax].
  - rewrite (checkRound_win st Hmax). apply resetGame_well_formed.
  - rewrite (checkRound_next st Hmax). apply well_formed_reset. exact Hcol.
Qed.

Lemma prefix_snoc_lookup (ps cs : list string) (c : string) :
  ps `prefix_of` cs → cs !! length ps = Some c → (ps ++ [c]) `prefix_of` cs.
Proof.
  intros [k ->] Hc. rewrite lookup_app_r, Nat.sub_diag in Hc by lia.
  destruct k as [|c' k]; [discriminate|]. injection Hc as ->.
  exists k. rewrite <- app_assoc. reflexivity.
Qed.

Lemma checkPress_well_formed signals c st :
  well_formed signals st → well_formed signals (exec (checkPress c) st).
Proof.
  intros [Hpre Hcol]. unfold exec. rewrite checkPress_spec.
  assert (Hpressed : computerSequence st !! length (playerSequence st) = Some c →
                     well_formed signals (pressed c st)).
  { intros Hc. split; [apply prefix_snoc_lookup; assumption | exact Hcol]. }
  case_bool_decide as Hmis.
  - apply resetGame_well_formed.
  - destruct (Z.eqb _ _).
    + apply checkRound_well_formed, Hpressed, Hmis.
    + apply Hpressed, Hmis.
Qed.

Lemma padHandler_well_formed signals d st :
  well_formed signals st → well_formed signals (exec (padHandler signals d) st).
Proof.
  intros Hwf. destruct d as [c|]; [|exact Hwf].
  destruct (decide (c = "")) as [->|Hc]; [exact Hwf|].
  destruct (find_pad signals c) as [p|] eqn:Hp.
  - rewrite (press_known_signal signals c p st Hc Hp).
    apply checkPress_well_formed.
    apply (well_formed_same signals st); [reflexivity | reflexivity | exact Hwf].
  - unfold padHandler, exec. rewrite (proj2 (String.eqb_neq c "") Hc), Hp. exact Hwf.
Qed.

Lemma run_task_well_formed signals u t st :
  well_formed signals st → well_formed signals (exec (run_task signals u t) st).
Proof.
  intros Hwf. destruct t as [sel|c| |]; cbn [run_task].
  - exact Hwf.
  - destruct (activatePad_sequences signals c st) as [Hps Hcs].
    apply (well_formed_same signals st); assumption.
  - exact Hwf.
  - apply playComputerTurn_well_formed, Hwf.
Qed.

Lemma fire_run_task signals i u st d t :
  timers st !! i = Some (d, t) →
  exec (fire signals i u) st
  = exec (run_task signals u t)
         (set_timers (take i (timers st) ++ drop (S i) (timers st)) st).
Proof.
  intros E. unfold fire, exec. run_monad. rewrite E. run_monad.
  destruct (run_task signals u t _) as [[[]|err] s']; reflexivity.
Qed.

Lemma fire_no_task signals i u st :
  timers st !! i = None → exec (fire signals i u) st = st.
Proof. intros E. unfold fire, exec. run_monad. rewrite E. reflexivity. Qed.

Lemma step_well_formed signals ev st :
  well_formed signals st → well_formed signals (step signals ev st).
Proof.
  intros Hwf. destruct ev; cbn [step].
  - unfold exec. rewrite startButtonHandler_spec.
    apply playComputerTurn_well_formed, well_formed_reset. constructor.
  - apply padHandler_well_formed, Hwf.
  - destruct (timers st !! i) as [[d t]|] eqn:E.
    + rewrite (fire_run_task signals i u st d t E).
      apply run_task_well_formed.
      apply (well_formed_same signals st); [reflexivity | reflexivity | exact Hwf].
    + rewrite (fire_no_task signals i u st E). exact Hwf.
  - destruct (setLevel_sequences l st) as [Hps Hcs].
    apply (well_formed_same signals st); assumption.
  - destruct (setText_sequences element t st) as [Hps Hcs].
    apply (well_formed_same signals st); assumption.
  - destruct (activatePad_sequences signals c st) as [Hps Hcs].
    apply (well_formed_same signals st); assumption.
  - destruct (activatePads_sequences sequence st) as [Hps Hcs].
    apply (well_formed_same signals st); assumption.
  - apply playComputerTurn_well_formed, Hwf.
  - exact Hwf.
  - apply checkPress_well_formed, Hwf.
  - apply checkRound_well_formed, Hwf.
  - apply resetGame_well_formed.
Qed.

Lemma reachable_well_formed signals st :
  reachable signals st → well_formed signals st.
Proof.
  induction 1 as [cls txt | ev st Hreach IH].
  - apply well_formed_reset. constructor.
  - apply step_well_formed, IH.
Qed.

(** X14. In every reachable state the player's input is a prefix of the
    target sequence: what has been accepted so far is exactly the beginning
    of what the computer played, not merely no longer than it. *)
Theorem player_input_is_prefix_of_target (signals : list pad) (st : state) :
  reachable signals st →
  playerSequence st `prefix_of` computerSequence st.
Proof. intros Hreach. apply (reachable_well_formed signals st Hreach). Qed.

Lemma player_input_is_prefix_of_target_witness :
  playerSequence
    (run pads [ClickStart 0; TimerFires 0 0; TimerFires 1 0; TimerFires 0 0;
               ClickPad (Some "red")] (initial ∅ ∅))
  `prefix_of`
  computerSequence
    (run pads [ClickStart 0; TimerFires 0 0; TimerFires 1 0; TimerFires 0 0;
               ClickPad (Some "red")] (initial ∅ ∅)).
Proof.
  apply (player_input_is_prefix_of_target pads).
  apply run_reachable, reachable_initial.
Defined.

(** X15. In every reachable state each colour of the target sequence is
    the colour of one of the pads, so the sequence the player is asked to
    repeat can always be pressed. *)
Theorem target_is_made_of_pad_colours (signals : list pad) (st : state) :
  reachable signals st →
  Forall (fun c => ∃ p, p ∈ signals ∧ color p = c) (computerSequence st).
Proof. intros Hreach. apply (reachable_well_formed signals st Hreach). Qed.

Lemma target_is_made_of_pad_colours_witness :
  Forall (fun c => ∃ p, p ∈ pads ∧ color p = c)
    (computerSequence
       (run pads [ClickStart 0; TimerFires 0 0; TimerFires 1 0; TimerFires 0 0;
                  ClickPad (Some "red"); TimerFires 1 (1 # 2)] (initial ∅ ∅))).
Proof.
  apply (target_is_made_of_pad_colours pads).
  apply run_reachable, reachable_initial.
Defined.

(** ** What the page alone can reach *)

Lemma playComputerTurn_counters signals u st :
  maxRoundCount (exec (playComputerTurn signals u) st) = maxRoundCount st
  ∧ roundCount (exec (playComputerTurn signals u) st) = roundCount st.
Proof.
  destruct (getRandomItem signals u) as [| |p] eqn:E.
  - destruct (playComputerTurn_no_item signals u st) as (_ & Hvars & _);
      [rewrite E; discriminate|].
    unfold game_vars in Hvars. injection Hvars as _ _ Hrc Hmrc. split; assumption.
  - destruct (playComputerTurn_no_item signals u st) as (_ & Hvars & _);
      [rewrite E; discriminate|].
    unfold game_vars in Hvars. injection Hvars as _ _ Hrc Hmrc. split; assumption.
  - unfold exec. rewrite (playComputerTurn_item signals u st p E). split; reflexivity.
Qed.

Lemma counters_in_range_same st st' :
  maxRoundCount st' = maxRoundCount st → roundCount st' = roundCount st →
  counters_in_range st → counters_in_range st'.
Proof. unfold counters_in_range. intros -> ->. tauto. Qed.

Lemma resetGame_counters msg st : counters_in_range (exec (resetGame msg) st).
Proof.
  unfold exec. rewrite resetGame_spec. split; [left; reflexivity | simpl; lia].
Qed.

Lemma checkRound_counters st :
  counters_in_range st → counters_in_range (exec checkRound st).
Proof.
  intros [Hmax Hrc]. unfold exec.
  destruct (decide (maxRoundCount st = JNum (Z.of_nat (length (computerSequence st)))))
    as [E|E].
  - rewrite (checkRound_win st E). apply resetGame_counters.
  - rewrite (checkRound_next st E). split; [exact Hmax | simpl; lia].
Qed.

Lemma checkPress_counters c st :
  counters_in_range st → counters_in_range (exec (checkPress c) st).
Proof.
  intros Hin. unfold exec. rewrite checkPress_spec.
  case_bool_decide.
  - apply resetGame_counters.
  - destruct (Z.eqb _ _).
    + apply checkRound_counters. exact Hin.
    + exact Hin.
Qed.

Lemma padHandler_counters signals d st :
  counters_in_range st → counters_in_range (exec (padHandler signals d) st).
Proof.
  intros Hin. destruct d as [c|]; [|exact Hin].
  destruct (decide (c = "")) as [->|Hc]; [exact Hin|].
  destruct (find_pad signals c) as [p|] eqn:Hp.
  - rewrite (press_known_signal signals c p st Hc Hp).
    apply checkPress_counters. exact Hin.
  - unfold padHandler, exec. rewrite (proj2 (String.eqb_neq c "") Hc), Hp. exact Hin.
Qed.

Lemma run_task_counters signals u t st :
  counters_in_range st → counters_in_range (exec (run_task signals u t) st).
Proof.
  intros Hin. destruct t as [sel|c| |]; cbn [run_task].
  - exact Hin.
  - unfold activatePad. destruct (find_pad signals c); exact Hin.
  - exact Hin.
  - destruct (playComputerTurn_counters signals u st) as [Hmrc Hrc].
    apply (counters_in_range_same st); assumption.
Qed.

Lemma ui_step_counters signals ev st :
  ui_event ev = true → counters_in_range st → counters_in_range (step signals ev st).
Proof.
  intros Hui Hin. destruct ev; try discriminate Hui; cbn [step].
  - unfold exec. rewrite startButtonHandler_spec.
    match goal with |- counters_in_range (snd (playComputerTurn signals u ?s)) =>
      destruct (playComputerTurn_counters signals u s) as [Hmrc Hrc];
      apply (counters_in_range_same s); [exact Hmrc | exact Hrc |]
    end.
    split; [right; reflexivity | simpl; lia].
  - apply padHandler_counters, Hin.
  - destruct (timers st !! i) as [[d t]|] eqn:E.
    + rewrite (fire_run_task signals i u st d t E).
      apply run_task_counters. exact Hin.
    + rewrite (fire_no_task signals i u st E). exact Hin.
Qed.

(** X16. Through the page alone (clicks on the start button and the pads,
    and callbacks coming due) [maxRoundCount] is only ever 0, between games,
    or 8: the levels of 14, 20 and 31 rounds are never in play.  [roundCount]
    is never negative. *)
Theorem page_plays_level_1_only
    (signals : list pad) (evs : list event) (cls : gset (string * string))
    (txt : gmap string text) :
  Forall (fun ev => ui_event ev = true) evs →
  counters_in_range (run signals evs (initial cls txt)).
Proof.
  intros Hui.
  assert (Hgen : ∀ st, counters_in_range st → counters_in_range (run signals evs st)).
  { induction Hui as [|ev evs Hev _ IH]; intros st Hin; [exact Hin|].
    cbn [run]. apply IH, ui_step_counters; assumption. }
  apply Hgen. split; [left; reflexivity | simpl; lia].
Qed.

Lemma page_plays_level_1_only_witness :
  counters_in_range
    (run pads [ClickStart 0; TimerFires 0 0; ClickPad (Some "red")] (initial ∅ ∅)).
Proof.
  apply (page_plays_level_1_only pads).
  repeat constructor.
Defined.

(** ** Handlers and reset *)

Lemma find_pad_is_Some signals c :
  is_Some (find_pad signals c) ↔ ∃ p, p ∈ signals ∧ color p = c.
Proof.
  split.
  - intros [p Hp]. unfold find_pad in Hp. apply List.find_some in Hp as [Hin Heq].
    exists p. split; [apply list_elem_of_In; exact Hin | apply String.eqb_eq; exact Heq].
  - intros (p & Hin & Hc). destruct (find_pad signals c) as [q|] eqn:E; [eexists; reflexivity|].
    exfalso. unfold find_pad in E.
    assert (Hin' : In p signals) by (apply list_elem_of_In; exact Hin).
    pose proof (List.find_none _ _ E p Hin') as Hneq.
    apply String.eqb_neq in Hneq. contradiction.
Qed.

(** X17. [padHandler] never throws, and it returns a colour exactly when
    the clicked element carries the non-empty colour of one of the pads; in
    every other case it returns [undefined]. *)
Theorem padHandler_returns_colour_iff_known
    (signals : list pad) (dataset_color : option string) (c : string) (st : state) :
  (result (padHandler signals dataset_color) st = Return (Some c)
   ↔ dataset_color = Some c ∧ c ≠ "" ∧ ∃ p, p ∈ signals ∧ color p = c)
  ∧ (result (padHandler signals dataset_color) st = Return None
     ∨ ∃ c', result (padHandler signals dataset_color) st = Return (Some c')).
Proof.
  assert (Hcases :
    (∃ c' p, dataset_color = Some c' ∧ c' ≠ "" ∧ find_pad signals c' = Some p
             ∧ result (padHandler signals dataset_color) st = Return (Some c'))
    ∨ (result (padHandler signals dataset_color) st = Return None
       ∧ ∀ c', dataset_color = Some c' → c' ≠ "" → find_pad signals c' = None)).
  { destruct dataset_color as [c'|]; [|right; split; [reflexivity | discriminate]].
    destruct (decide (c' = "")) as [->|Hc'].
    { right. split; [reflexivity|]. intros ? [= <-] H. contradiction. }
    destruct (find_pad signals c') as [p|] eqn:Hp.
    - left. exists c', p. repeat split; try assumption.
      unfold result. rewrite (padHandler_known_signal signals c' p st Hc' Hp). reflexivity.
    - right. split.
      + unfold padHandler, result. rewrite (proj2 (String.eqb_neq c' "") Hc'), Hp.
        reflexivity.
      + intros ? [= <-] _. exact Hp. }
  destruct Hcases as [(c' & p & -> & Hc' & Hp & Hres) | [Hres Hnone]].
  - split; [|right; exists c'; exact Hres]. rewrite Hres. split.
    + intros [= ->]. split; [reflexivity|]. split; [exact Hc'|].
      apply find_pad_is_Some. eexists. exact Hp.
    + intros ([= ->] & _). reflexivity.
  - split; [|left; exact Hres]. rewrite Hres. split; [discriminate|].
    intros (-> & Hc & Hex). apply find_pad_is_Some in Hex as [p Hp].
    rewrite (Hnone c eq_refl Hc) in Hp. discriminate.
Qed.

(** X18. [resetGame] is idempotent up to its alert: a second reset leaves
    the game variables, the page and the pending callbacks exactly as the
    first one left them and only shows its own message after the first. *)
Theorem resetGame_twice (first second : string) (st : state) :
  exec (resetGame second) (exec (resetGame first) st)
  = set_alerts (alerts st ++ [first; second]) (exec (resetGame first) st).
Proof.
  unfold exec. rewrite !resetGame_spec. cbn [snd]. unfold set_alerts.
  cbn [computerSequence playerSequence maxRoundCount roundCount classList textContent
       played alerts timers].
  rewrite insert_insert_eq, <- app_assoc. f_equal.
  apply set_eq. intros x.
  rewrite !elem_of_union, !elem_of_difference, !elem_of_union, !elem_of_difference,
    !elem_of_singleton.
  split.
  - intros [H | [H | [[H | [H | H]] _]]]; tauto.
  - intros [H | [H | [H1 H2]]]; [tauto | tauto |].
    right. right. split; [tauto | exact H2].
Qed.
